(** * finch: the persistence layer (persist.go)

    A shallow embedding of the repository operations of [persist.go]:
    user, channel and post access over a [database/sql] handle.

    The Go code talks to the storage engine only through [Begin],
    [Prepare], [Exec], [QueryRow]/[Query] and [Commit].  The engine is
    not part of the repository, so the development carries an explicit
    model of it ([World]): the committed tables, the working copy of
    the open transaction, the failures the driver is going to report,
    the random source of [uuid.NewV4] and the clock.  The repository
    functions are then written in a small state monad over [World], one
    definition per Go function, statement by statement. *)

From Stdlib Require Import List ZArith String Ascii Bool Lia Sorted Permutation.
Import ListNotations.
Local Open Scope string_scope.
Local Open Scope list_scope.
Local Open Scope Z_scope.

(** ** Strings *)

(** [strings.Replace(s, old, new, -1)] for a one-byte [old]: the
    non-overlapping occurrences of [old] are the bytes of [s] equal to
    it, and each of them is replaced by [new]. *)
Fixpoint Replace (s : string) (old : ascii) (new : string) : string :=
  match s with
  | EmptyString => EmptyString
  | String c rest =>
      if Ascii.eqb c old then (new ++ Replace rest old new)%string
      else String c (Replace rest old new)
  end.

(** The ASCII part of [strings.ToLower]: 'A'..'Z' go to 'a'..'z'.  It
    is used to run the model on ASCII labels; the development itself is
    parametric in [ToLower] (see [Section Repository]). *)
Definition ascii_lower (c : ascii) : ascii :=
  let n := nat_of_ascii c in
  if (andb (Nat.leb 65 n) (Nat.leb n 90)) then ascii_of_nat (n + 32) else c.

Fixpoint ascii_ToLower (s : string) : string :=
  match s with
  | EmptyString => EmptyString
  | String c rest => String (ascii_lower c) (ascii_ToLower rest)
  end.

(** ** Data transfer records *)

(** [User{Id, Username, Password}]; [Password] is a [[]byte]. *)
Record User := mkUser {
  Id : Z;
  Username : string;
  Password : list ascii
}.

(** [type Channel struct], persist.go:90.  [User] is a [*User]: [None]
    is the nil pointer. *)
Record Channel := mkChannel {
  cId : Z;
  cUser : option User;
  Slug : string;
  Label : string
}.

(** [Post{Id, UUID, User, Body, Posted}]. *)
Record Post := mkPost {
  pId : Z;
  UUID : string;
  pUser : option User;
  Body : string;
  Posted : Z
}.

(** Go's [error] values that the code can meet. *)
Inductive error :=
| ErrNoRows        (* sql.ErrNoRows, from Scan on an empty result *)
| ErrConstraint    (* a uniqueness constraint of the schema refused the insert *)
| ErrDriver        (* any other failure reported by the driver *)
| ErrTxDone        (* the transaction is not open *)
| ErrRand.         (* the random source of uuid.NewV4 failed *)

(** ** The stored tables *)

Record UserRow := mkUserRow {
  ur_id : Z; ur_username : string; ur_password : string
}.

Record ChannelRow := mkChannelRow {
  cr_id : Z; cr_user_id : Z; cr_slug : string; cr_label : string
}.

Record PostRow := mkPostRow {
  pr_id : Z; pr_uuid : string; pr_user_id : Z; pr_body : string; pr_posted : Z
}.

(** Modelled from the spec: [schema.sql] is not among the sources.  The
    spec (section 6) gives four tables, [users(id, username unique,
    password)], [channel(id, user_id, slug, label)] unique on
    [(user_id, slug)], [post(id, uuid unique, user_id, body, posted)]
    and the join table [postchannel(post_id, channel_id)].  Rows are
    kept in insertion order. *)
Record DB := mkDB {
  users : list UserRow;
  channel : list ChannelRow;
  post : list PostRow;
  postchannel : list (Z * Z)
}.

Definition empty_DB : DB := mkDB [] [] [] [].

(** The identifier the storage generates for a new row: one more than
    the largest identifier in the table. *)
Definition next_id (ids : list Z) : Z := 1 + fold_right Z.max 0 ids.

(** *** Single-row queries *)

(** [select id, password from users where username = ?] *)
Definition select_user_by_username (d : DB) (username : string) : option UserRow :=
  find (fun r => String.eqb (ur_username r) username) (users d).

(** [select username, password from users where id = ?] *)
Definition select_user_by_id (d : DB) (id : Z) : option UserRow :=
  find (fun r => Z.eqb (ur_id r) id) (users d).

(** [select id, label from channel where user_id = ? AND slug = ?] *)
Definition select_channel (d : DB) (user_id : Z) (slug : string) : option ChannelRow :=
  find (fun r => andb (Z.eqb (cr_user_id r) user_id) (String.eqb (cr_slug r) slug))
       (channel d).

(** [select user_id, slug, label from channel where id = ?] *)
Definition select_channel_by_id (d : DB) (id : Z) : option ChannelRow :=
  find (fun r => Z.eqb (cr_id r) id) (channel d).

(** [select user_id, uuid, body, posted from post where id = ?] *)
Definition select_post_by_id (d : DB) (id : Z) : option PostRow :=
  find (fun r => Z.eqb (pr_id r) id) (post d).

(** *** Multi-row queries *)

(** [select id, slug, label from channel where user_id = ?] *)
Definition select_user_channels (d : DB) (user_id : Z) : list ChannelRow :=
  filter (fun r => Z.eqb (cr_user_id r) user_id) (channel d).

(** [order by posted desc]: an insertion sort, the newest first; of the
    rows with the same timestamp, the one inserted last comes first. *)
Fixpoint insert_desc (r : PostRow) (l : list PostRow) : list PostRow :=
  match l with
  | [] => [r]
  | x :: rest =>
      if Z.ltb (pr_posted x) (pr_posted r) then r :: x :: rest
      else x :: insert_desc r rest
  end.

Definition order_by_posted_desc (l : list PostRow) : list PostRow :=
  fold_right insert_desc [] l.

(** [limit ? offset ?]: a negative limit is no limit, a negative offset
    is offset 0. *)
Definition limit_offset {A : Type} (limit offset : Z) (l : list A) : list A :=
  let l' := skipn (Z.to_nat offset) l in
  if Z.ltb limit 0 then l' else firstn (Z.to_nat limit) l'.

(** [select id, uuid, user_id, body, posted from post
     order by posted desc limit ? offset ?] *)
Definition select_all_posts (d : DB) (limit offset : Z) : list PostRow :=
  limit_offset limit offset (order_by_posted_desc (post d)).

(** [select id, uuid, body, posted from post where user_id = ?
     order by posted desc limit ? offset ?] *)
Definition select_user_posts (d : DB) (user_id limit offset : Z) : list PostRow :=
  limit_offset limit offset
    (order_by_posted_desc (filter (fun r => Z.eqb (pr_user_id r) user_id) (post d))).

(** *** Inserts: [None] when a uniqueness constraint refuses the row,
    otherwise the new tables and the identifier of the new row. *)

(** [insert into users(username, password) values(?, ?)] *)
Definition insert_user (username password : string) (d : DB) : option (DB * Z) :=
  match select_user_by_username d username with
  | Some _ => None
  | None =>
      let id := next_id (map ur_id (users d)) in
      Some (mkDB (users d ++ [mkUserRow id username password])
                 (channel d) (post d) (postchannel d), id)
  end.

(** [insert into channel(user_id, slug, label) values(?, ?, ?)] *)
Definition insert_channel (user_id : Z) (slug label : string) (d : DB) : option (DB * Z) :=
  match select_channel d user_id slug with
  | Some _ => None
  | None =>
      let id := next_id (map cr_id (channel d)) in
      Some (mkDB (users d) (channel d ++ [mkChannelRow id user_id slug label])
                 (post d) (postchannel d), id)
  end.

(** [insert into post(user_id, uuid, body, posted) values(?, ?, ?, ?)] *)
Definition insert_post (user_id : Z) (uuid body : string) (posted : Z) (d : DB)
  : option (DB * Z) :=
  match find (fun r => String.eqb (pr_uuid r) uuid) (post d) with
  | Some _ => None
  | None =>
      let id := next_id (map pr_id (post d)) in
      Some (mkDB (users d) (channel d)
                 (post d ++ [mkPostRow id uuid user_id body posted])
                 (postchannel d), id)
  end.

(** [insert into postchannel (post_id, channel_id) values (?, ?)] *)
Definition insert_postchannel (post_id channel_id : Z) (d : DB) : option (DB * Z) :=
  Some (mkDB (users d) (channel d) (post d) (postchannel d ++ [(post_id, channel_id)]),
        Z.of_nat (S (List.length (postchannel d)))).

(** ** The storage handle and its environment *)

(** The calls on the transaction that change its life cycle.
    [database/sql] offers [Rollback] as well as [Commit]. *)
Inductive TxCall := TxBegin | TxCommit | TxRollback.

(** What a repository operation can observe and change.  [store] is the
    committed contents of the database file, read by every statement
    prepared on [p.Database]; [tx] is the working copy of the open
    transaction, written by the statements prepared on it and invisible
    to [p.Database] until [Commit] ([database/sql] runs a statement
    prepared on the handle on another connection than the one of the
    open transaction).  The three fault lists give, call
    after call, whether the driver is going to report a failure of its
    own (an exhausted list means no failure); [entropy] feeds
    [uuid.NewV4] (exhausted: the random source fails); [now] is
    [time.Now().Unix()]; [txlog] records the life-cycle calls made. *)
Record World := mkWorld {
  store : DB;
  tx : option DB;
  begin_faults : list bool;
  prepare_faults : list bool;
  exec_faults : list bool;
  entropy : list string;
  now : Z;
  txlog : list TxCall
}.

(** How a Go call ends: it returns, the process is terminated by
    [log.Fatal], or a nil pointer is dereferenced. *)
Inductive Outcome (A : Type) :=
| Ret (a : A)
| Fatal
| Panic.
Arguments Ret {A} a.
Arguments Fatal {A}.
Arguments Panic {A}.

Definition M (A : Type) : Type := World -> Outcome A * World.

Definition ret {A : Type} (a : A) : M A := fun w => (Ret a, w).

Definition bind {A B : Type} (m : M A) (k : A -> M B) : M B :=
  fun w =>
    match m w with
    | (Ret a, w') => k a w'
    | (Fatal, w') => (Fatal, w')
    | (Panic, w') => (Panic, w')
    end.

Notation "x <- m ;; k" := (bind m (fun x => k))
  (at level 61, m at next level, right associativity).
Notation "' pat <- m ;; k" := (bind m (fun x => match x with pat => k end))
  (at level 61, pat pattern, m at next level, right associativity).
Notation "m ;;; k" := (bind m (fun _ => k))
  (at level 61, right associativity).

(** [log.Fatal(err)]: the process exits; the [return] written after it
    in the source is never reached. *)
Definition log_Fatal {A : Type} : M A := fun w => (Fatal, w).

Definition panic {A : Type} : M A := fun w => (Panic, w).

Definition pop (l : list bool) : bool * list bool :=
  match l with
  | [] => (false, [])
  | b :: rest => (b, rest)
  end.

(** [p.Database.Begin()] *)
Definition Begin : M (option error) := fun w =>
  let (failed, rest) := pop (begin_faults w) in
  if failed then
    (Ret (Some ErrDriver),
     mkWorld (store w) (tx w) rest (prepare_faults w) (exec_faults w)
             (entropy w) (now w) (txlog w))
  else
    (Ret None,
     mkWorld (store w) (Some (store w)) rest (prepare_faults w) (exec_faults w)
             (entropy w) (now w) (txlog w ++ [TxBegin])).

(** [p.Database.Prepare(q)] and [tx.Prepare(q)]: the statement itself
    is given by the [Exec] or query that follows. *)
Definition Prepare : M (option error) := fun w =>
  let (failed, rest) := pop (prepare_faults w) in
  (Ret (if failed then Some ErrDriver else None),
   mkWorld (store w) (tx w) (begin_faults w) rest (exec_faults w)
           (entropy w) (now w) (txlog w)).

(** [stmt.Exec(args...)] of a statement prepared on the transaction:
    [ins] is the insert with its arguments bound.  The result is the
    [sql.Result] (the identifier of the inserted row) or the error; a
    failed statement leaves the working copy as it was. *)
Definition Exec (ins : DB -> option (DB * Z)) : M (Z + error) := fun w =>
  let (failed, rest) := pop (exec_faults w) in
  let w1 := mkWorld (store w) (tx w) (begin_faults w) (prepare_faults w) rest
                    (entropy w) (now w) (txlog w) in
  if failed then (Ret (inr ErrDriver), w1)
  else
    match tx w with
    | None => (Ret (inr ErrTxDone), w1)
    | Some d =>
        match ins d with
        | None => (Ret (inr ErrConstraint), w1)
        | Some (d', id) =>
            (Ret (inl id),
             mkWorld (store w) (Some d') (begin_faults w) (prepare_faults w) rest
                     (entropy w) (now w) (txlog w))
        end
    end.

(** [r.LastInsertId()]: the sqlite3 driver always has it. *)
Definition LastInsertId (r : Z) : Z * option error := (r, None).

(** [tx.Commit()]: the working copy becomes the committed contents.
    [persist.go] never reads the error of [Commit]. *)
Definition Commit : M unit := fun w =>
  (Ret tt,
   mkWorld (match tx w with Some d => d | None => store w end) None
           (begin_faults w) (prepare_faults w) (exec_faults w)
           (entropy w) (now w) (txlog w ++ [TxCommit])).

(** [tx.Rollback()]: the working copy is dropped.  [persist.go] never
    calls it. *)
Definition Rollback : M unit := fun w =>
  (Ret tt,
   mkWorld (store w) None
           (begin_faults w) (prepare_faults w) (exec_faults w)
           (entropy w) (now w) (txlog w ++ [TxRollback])).

(** [stmt.QueryRow(args...).Scan(...)] of a statement prepared on
    [p.Database]: the first matching row of the committed contents, or
    [sql.ErrNoRows]. *)
Definition QueryRow {R : Type} (q : DB -> option R) : M (R + error) :=
  fun w =>
    match q (store w) with
    | Some r => (Ret (inl r), w)
    | None => (Ret (inr ErrNoRows), w)
    end.

(** [stmt.Query(args...)] with the [rows.Next()]/[rows.Scan] loop: the
    matching rows of the committed contents, in order.  A query has no
    failure of the driver in this model: [Query] always gives its rows,
    and [QueryRow] fails with [sql.ErrNoRows] only. *)
Definition Query {R : Type} (q : DB -> list R) : M (list R) :=
  fun w => (Ret (q (store w)), w).

(** [uuid.NewV4()] followed by [u4.String()] *)
Definition NewV4 : M (string + error) := fun w =>
  match entropy w with
  | [] => (Ret (inr ErrRand), w)
  | u4 :: rest =>
      (Ret (inl u4),
       mkWorld (store w) (tx w) (begin_faults w) (prepare_faults w) (exec_faults w)
               rest (now w) (txlog w))
  end.

(** [time.Now().Unix()] *)
Definition time_Now_Unix : M Z := fun w => (Ret (now w), w).

(** ** The repository operations of persist.go *)

Definition bytes (s : string) : list ascii := list_ascii_of_string s.

(** persist.go:30 *)
Definition GetUser (username : string) : M (option User * bool) :=
  err <- Prepare ;;
  match err with
  | Some _ => log_Fatal
  | None =>
      row <- QueryRow (fun d => select_user_by_username d username) ;;
      match row with
      | inr _ => ret (None, false)
      | inl r => ret (Some (mkUser (ur_id r) username (bytes (ur_password r))), true)
      end
  end.

(** persist.go:48 *)
Definition GetUserById (id : Z) : M (option User * option error) :=
  err <- Prepare ;;
  match err with
  | Some _ => log_Fatal
  | None =>
      row <- QueryRow (fun d => select_user_by_id d id) ;;
      match row with
      | inr err => ret (None, Some err)
      | inl r => ret (Some (mkUser id (ur_username r) (bytes (ur_password r))), None)
      end
  end.

(** persist.go:97.  The channels of the listing carry no [User]. *)
Definition UserChannels (u : User) : M (list (option Channel)) :=
  err <- Prepare ;;
  match err with
  | Some _ => log_Fatal
  | None =>
      rows <- Query (fun d => select_user_channels d (Id u)) ;;
      ret (fold_left
             (fun channels r =>
                channels ++ [Some (mkChannel (cr_id r) None (cr_slug r) (cr_label r))])
             rows [])
  end.

(** persist.go:154 *)
Definition GetChannel (u : User) (slug : string) : M (option Channel * option error) :=
  err <- Prepare ;;
  match err with
  | Some _ => log_Fatal
  | None =>
      row <- QueryRow (fun d => select_channel d (Id u) slug) ;;
      match row with
      | inr err => ret (None, Some err)
      | inl r => ret (Some (mkChannel (cr_id r) (Some u) slug (cr_label r)), None)
      end
  end.

(** persist.go:173 *)
Definition GetChannelById (id : Z) : M (option Channel * option error) :=
  err <- Prepare ;;
  match err with
  | Some _ => log_Fatal
  | None =>
      row <- QueryRow (fun d => select_channel_by_id d id) ;;
      match row with
      | inr err => ret (None, Some err)
      | inl r =>
          '(u, err) <- GetUserById (cr_user_id r) ;;
          match err with
          | Some err => ret (None, Some err)
          | None => ret (Some (mkChannel id u (cr_slug r) (cr_label r)), None)
          end
      end
  end.

(** persist.go:199 *)
Definition GetPost (id : Z) : M (option Post * option error) :=
  err <- Prepare ;;
  match err with
  | Some _ => log_Fatal
  | None =>
      row <- QueryRow (fun d => select_post_by_id d id) ;;
      match row with
      | inr err => ret (None, Some err)
      | inl r =>
          '(u, err) <- GetUserById (pr_user_id r) ;;
          match err with
          | Some err => ret (None, Some err)
          | None =>
              ret (Some (mkPost id (pr_uuid r) u (pr_body r) (pr_posted r)), None)
          end
      end
  end.

(** The [for rows.Next()] loop of [GetAllPosts], persist.go:245. *)
Fixpoint GetAllPosts_rows (rows : list PostRow) (posts : list (option Post))
  : M (list (option Post)) :=
  match rows with
  | [] => ret posts
  | r :: rest =>
      '(u, err) <- GetUserById (pr_user_id r) ;;
      match err with
      | Some _ => GetAllPosts_rows rest posts
      | None =>
          let post := mkPost (pr_id r) (pr_uuid r) u (pr_body r) (pr_posted r) in
          GetAllPosts_rows rest (posts ++ [Some post])
      end
  end.

(** persist.go:228 *)
Definition GetAllPosts (limit offset : Z) : M (list (option Post) * option error) :=
  err <- Prepare ;;
  match err with
  | Some _ => log_Fatal
  | None =>
      rows <- Query (fun d => select_all_posts d limit offset) ;;
      posts <- GetAllPosts_rows rows [] ;;
      ret (posts, None)
  end.

(** persist.go:263.  [u] is a [*User]; [u.Id] on a nil pointer panics. *)
Definition GetAllUserPosts (u : option User) (limit offset : Z)
  : M (list (option Post) * option error) :=
  err <- Prepare ;;
  match err with
  | Some _ => log_Fatal
  | None =>
      match u with
      | None => panic
      | Some usr =>
          rows <- Query (fun d => select_user_posts d (Id usr) limit offset) ;;
          ret (fold_left
                 (fun posts r =>
                    posts ++ [Some (mkPost (pr_id r) (pr_uuid r) u (pr_body r) (pr_posted r))])
                 rows [],
               None)
      end
  end.

(** The [for _, c := range channels] loop of [AddPost], persist.go:333:
    the error of a join-row insert is logged and the loop goes on. *)
Fixpoint AddPost_channels (id : Z) (channels : list (option Channel)) : M unit :=
  match channels with
  | [] => ret tt
  | None :: _ => panic
  | Some c :: rest =>
      Exec (insert_postchannel id (cId c)) ;;;
      AddPost_channels id rest
  end.

(** persist.go:292 *)
Definition AddPost (u : User) (body : string) (channels : list (option Channel))
  : M (option Post * option error) :=
  err <- Begin ;;
  match err with
  | Some _ => log_Fatal
  | None =>
      u4 <- NewV4 ;;
      match u4 with
      | inr err => ret (None, Some err)
      | inl u4 =>
          err <- Prepare ;;
          match err with
          | Some _ => log_Fatal
          | None =>
              posted <- time_Now_Unix ;;
              r <- Exec (insert_post (Id u) u4 body posted) ;;
              match r with
              | inr err => ret (None, Some err)
              | inl r =>
                  let '(id, err) := LastInsertId r in
                  match err with
                  | Some err => ret (None, Some err)
                  | None =>
                      err <- Prepare ;;
                      match err with
                      | Some _ => log_Fatal
                      | None =>
                          AddPost_channels id channels ;;;
                          Commit ;;;
                          '(post, err) <- GetPost id ;;
                          match err with
                          | Some err => ret (None, Some err)
                          | None => ret (post, None)
                          end
                      end
                  end
              end
          end
      end
  end.

Section Repository.

(** [strings.ToLower] of the Go library. *)
Variable ToLower : string -> string.

(** Modelled from the spec: [User.SetPassword] is not among the
    sources; it hashes the password with an external credential
    utility and gives the encoded credential that is stored. *)
Variable SetPassword : string -> string.

(** persist.go:67.  The error of [stmt.Exec] is assigned and never
    read. *)
Definition CreateUser (username password : string) : M (option User * option error) :=
  let encpassword := SetPassword password in
  err <- Begin ;;
  match err with
  | Some _ => log_Fatal
  | None =>
      err <- Prepare ;;
      match err with
      | Some _ => log_Fatal
      | None =>
          Exec (insert_user username encpassword) ;;;
          Commit ;;;
          '(u, _) <- GetUser username ;;
          ret (u, None)
      end
  end.

(** [slug := strings.ToLower(strings.Replace(label, " ", "_", -1))] *)
Definition slug_of (label : string) : string :=
  ToLower (Replace label " "%char "_").

(** The [for _, label := range names] loop of [AddChannels],
    persist.go:138. *)
Fixpoint AddChannels_names (u : User) (names : list string)
         (created : list (option Channel)) : M (list (option Channel)) :=
  match names with
  | [] => ret created
  | label :: rest =>
      if String.eqb label "" then AddChannels_names u rest created
      else
        let slug := slug_of label in
        Exec (insert_channel (Id u) slug label) ;;;
        '(c, err) <- GetChannel u slug ;;
        match err with
        | Some _ => AddChannels_names u rest (created ++ [c])
        | None => AddChannels_names u rest created
        end
  end.

(** persist.go:124 *)
Definition AddChannels (u : User) (names : list string)
  : M (list (option Channel) * option error) :=
  err <- Begin ;;
  match err with
  | Some _ => log_Fatal
  | None =>
      err <- Prepare ;;
      match err with
      | Some _ => log_Fatal
      | None =>
          created <- AddChannels_names u names [] ;;
          Commit ;;;
          ret (created, None)
      end
  end.

End Repository.

(** ** Vocabulary of the statements *)

(** The storage handle works: no [Begin] and no [Prepare] is going to
    fail, so that no operation ends in [log.Fatal]. *)
Definition storage_ok (w : World) : Prop :=
  begin_faults w = [] /\ prepare_faults w = [].

(** [w] with another working copy and other pending [Exec] failures. *)
Definition set_tx (w : World) (t : option DB) (faults : list bool) : World :=
  mkWorld (store w) t (begin_faults w) (prepare_faults w) faults
          (entropy w) (now w) (txlog w).

(** [w] once [Begin] has opened a transaction on it. *)
Definition begun (w : World) : World :=
  mkWorld (store w) (Some (store w)) (begin_faults w) (prepare_faults w)
          (exec_faults w) (entropy w) (now w) (txlog w ++ [TxBegin]).

(** [w] once the transaction with working copy [t] has been committed. *)
Definition committed (w : World) (t : option DB) (faults : list bool) : World :=
  mkWorld (match t with Some d => d | None => store w end) None
          (begin_faults w) (prepare_faults w) faults
          (entropy w) (now w) (txlog w ++ [TxBegin; TxCommit]).

(** One statement against the working copy [t], the driver failing it
    or not: its result and the working copy after it. *)
Definition exec1 (ins : DB -> option (DB * Z)) (failed : bool) (t : option DB)
  : (Z + error) * option DB :=
  if failed then (inr ErrDriver, t)
  else
    match t with
    | None => (inr ErrTxDone, t)
    | Some d =>
        match ins d with
        | None => (inr ErrConstraint, t)
        | Some (d', id) => (inl id, Some d')
        end
    end.

(** A sequence of statements against the working copy, each consuming
    one driver outcome: a statement that fails changes nothing and the
    next one is executed all the same. *)
Fixpoint run_stmts (stmts : list (DB -> option (DB * Z))) (faults : list bool)
         (t : option DB) : option DB * list bool :=
  match stmts with
  | [] => (t, faults)
  | ins :: rest =>
      run_stmts rest (snd (pop faults)) (snd (exec1 ins (fst (pop faults)) t))
  end.

(** The operation has taken [w] to [w'] by opening one transaction,
    executing [stmts] in it and committing it: the committed contents
    of [w'] are what the statements leave, those that failed having
    changed nothing, and no other life-cycle call was made. *)
Definition commits (w w' : World) (stmts : list (DB -> option (DB * Z))) : Prop :=
  txlog w' = txlog w ++ [TxBegin; TxCommit] /\
  tx w' = None /\
  Some (store w') = fst (run_stmts stmts (exec_faults w) (Some (store w))).

(** The statements of [AddPost] for the post identifier [id]: the post
    row, then one join row per channel. *)
Definition post_stmts (u : User) (u4 body : string) (posted id : Z)
           (chans : list Channel) : list (DB -> option (DB * Z)) :=
  insert_post (Id u) u4 body posted
  :: map (fun c => insert_postchannel id (cId c)) chans.

(** The elements of [l] whose statement the driver does not fail, the
    statements consuming [faults] in order. *)
Fixpoint kept {A : Type} (faults : list bool) (l : list A) : list A :=
  match l with
  | [] => []
  | x :: rest =>
      if fst (pop faults) then kept (snd (pop faults)) rest
      else x :: kept (snd (pop faults)) rest
  end.

Definition nonempty (label : string) : bool := negb (String.eqb label "").

(** The key of the uniqueness constraint of [channel], and the test of
    [select_channel] for it. *)
Definition channel_key (r : ChannelRow) : Z * string := (cr_user_id r, cr_slug r).

Definition has_key (user_id : Z) (slug : string) (r : ChannelRow) : bool :=
  andb (Z.eqb (cr_user_id r) user_id) (String.eqb (cr_slug r) slug).

(** The channel table has at most one row per [(user_id, slug)]. *)
Definition channel_unique (d : DB) : Prop :=
  NoDup (map channel_key (channel d)).

(** Post identifiers are not reused. *)
Definition post_ids_unique (d : DB) : Prop :=
  NoDup (map pr_id (post d)).

(** The constraints of the schema that the statements rely on. *)
Definition schema_ok (d : DB) : Prop := channel_unique d /\ post_ids_unique d.

(** The number of channels of a listing that carry the slug [s]. *)
Definition count_slug (s : string) (l : list Channel) : nat :=
  List.length (filter (fun c => String.eqb (Slug c) s) l).

(** No pending [Exec] is going to be failed by the driver. *)
Definition no_exec_fault (w : World) : Prop :=
  Forall (fun b => b = false) (exec_faults w).

(** The posts [GetAllPosts] builds from the fetched rows: a row gives a
    post when [GetUserById] resolves its owner without error, and
    nothing otherwise. *)
Definition resolved (w : World) (rows : list PostRow) : list (option Post) :=
  flat_map
    (fun r =>
       match fst (GetUserById (pr_user_id r) w) with
       | Ret (u, None) =>
           [Some (mkPost (pr_id r) (pr_uuid r) u (pr_body r) (pr_posted r))]
       | _ => []
       end)
    rows.

(** The same posts, from the user table. *)
Definition posts_of (d : DB) (rows : list PostRow) : list Post :=
  flat_map
    (fun r =>
       match select_user_by_id d (pr_user_id r) with
       | Some ur =>
           [mkPost (pr_id r) (pr_uuid r)
                   (Some (mkUser (pr_user_id r) (ur_username ur) (bytes (ur_password ur))))
                   (pr_body r) (pr_posted r)]
       | None => []
       end)
    rows.

(** Newest first. *)
Definition newer_first (p q : Post) : Prop := Posted q <= Posted p.

Section Vocabulary.

Variable ToLower : string -> string.

(** The statements [AddChannels] executes for [names], in order: one
    insert per non-empty label. *)
Definition channel_stmts (u : User) (names : list string)
  : list (DB -> option (DB * Z)) :=
  map (fun label => insert_channel (Id u) (slug_of ToLower label) label)
      (filter nonempty names).

(** What [AddChannels] reports as created for [names]: for every
    non-empty label, whatever [GetChannel] returned for its slug, and
    this only when [GetChannel] returned an error.  [GetChannel] is
    run on [w], the world of the call: it reads the committed
    contents, which do not change before [Commit]. *)
Definition reported (u : User) (names : list string) (w : World)
  : list (option Channel) :=
  flat_map
    (fun label =>
       if nonempty label then
         match fst (GetChannel u (slug_of ToLower label) w) with
         | Ret (c, Some _) => [c]
         | _ => []
         end
       else [])
    names.

End Vocabulary.

(** An operation that, from [w], returns after running [stmts] in one
    committed transaction. *)
Definition returns_committing {A : Type} (m : M A) (w : World)
           (stmts : list (DB -> option (DB * Z))) : Prop :=
  exists (r : A) (w' : World), m w = (Ret r, w') /\ commits w w' stmts.

(** *** Sample data: the scenario of the spec *)

Definition sample_hash (password : string) : string :=
  ("hashed:" ++ password)%string.

Definition alice : User := mkUser 1 "alice" (bytes "hashed:pw1").

Definition db_alice : DB := mkDB [mkUserRow 1 "alice" "hashed:pw1"] [] [] [].

(** A world with a working storage handle, the given committed
    contents, pending [Exec] failures and random tokens. *)
Definition world_of (d : DB) (faults : list bool) (tokens : list string) : World :=
  mkWorld d None [] [] faults tokens 1700000000 [].

(** alice is registered; nothing else is stored. *)
Definition w_alice : World := world_of db_alice [] ["token-1"; "token-2"].

(** alice has the channel "tech_news" already. *)
Definition db_channel : DB :=
  mkDB [mkUserRow 1 "alice" "hashed:pw1"]
       [mkChannelRow 1 1 "tech_news" "Tech News"] [] [].

(** Three posts, the second one by a user that is not stored. *)
Definition db_feed : DB :=
  mkDB [mkUserRow 1 "alice" "hashed:pw1"] []
       [mkPostRow 1 "token-a" 1 "first" 100;
        mkPostRow 2 "token-b" 7 "orphan" 200;
        mkPostRow 3 "token-c" 1 "third" 300] [].

Definition tech_news : Channel := mkChannel 1 (Some alice) "tech_news" "Tech News".
Definition diary : Channel := mkChannel 2 (Some alice) "diary" "Diary".

(** The concrete scenario of the spec, from an empty database: alice
    registers, creates "Tech News" and "Diary", and posts "hello world"
    in "tech_news"; her page then has exactly this post. *)
Definition scenario : World :=
  let w1 := snd (CreateUser sample_hash "alice" "pw1"
                            (world_of empty_DB [] ["token-1"])) in
  let w2 := snd (AddChannels ascii_ToLower alice ["Tech News"; "Diary"] w1) in
  snd (AddPost alice "hello world" [Some tech_news] w2).

(** *** Vocabulary of the further properties *)

(** [w'] differs from [w] at most in the pending [Prepare] failures:
    nothing was written, no transaction was opened or closed, no
    [Exec] failure, random token or [Begin] failure was consumed. *)
Definition same_data (w w' : World) : Prop :=
  store w' = store w /\ tx w' = tx w /\ txlog w' = txlog w /\
  exec_faults w' = exec_faults w /\ begin_faults w' = begin_faults w /\
  entropy w' = entropy w /\ now w' = now w.

(** An operation that, in every world, leaves the data as it is. *)
Definition read_only {A : Type} (m : M A) : Prop :=
  forall w : World, same_data w (snd (m w)).

(** The user that [GetUser] and [GetUserById] build from a row. *)
Definition user_of_row (r : UserRow) : User :=
  mkUser (ur_id r) (ur_username r) (bytes (ur_password r)).

(** The post of a feed belongs to the user with identifier [user_id]. *)
Definition owned_by (user_id : Z) (p : option Post) : bool :=
  match p with
  | Some (mkPost _ _ (Some u) _ _) => Z.eqb (Id u) user_id
  | _ => false
  end.

(** No committed channel of the user carries the slug. *)
Definition absent (d : DB) (user_id : Z) (slug : string) : bool :=
  match select_channel d user_id slug with
  | Some _ => false
  | None => true
  end.

(** Every table is keyed as the schema says: identifiers are not
    reused, usernames, [(user_id, slug)] pairs and tokens are unique. *)
Definition db_wf (d : DB) : Prop :=
  NoDup (map ur_id (users d)) /\
  NoDup (map ur_username (users d)) /\
  NoDup (map cr_id (channel d)) /\
  channel_unique d /\
  post_ids_unique d /\
  NoDup (map pr_uuid (post d)).

(** ** Evaluation of the driver calls *)

Lemma set_tx_id (w : World) : set_tx w (tx w) (exec_faults w) = w.
Proof. destruct w; reflexivity. Qed.

Lemma Prepare_ok (w : World) :
  prepare_faults w = [] -> Prepare w = (Ret None, w).
Proof.
  destruct w as [s t bf pf ef en n lg]; simpl; intros ->; reflexivity.
Qed.

Lemma Begin_ok (w : World) :
  begin_faults w = [] -> Begin w = (Ret None, begun w).
Proof.
  destruct w as [s t bf pf ef en n lg]; simpl; intros ->; reflexivity.
Qed.

Lemma Exec_eq (ins : DB -> option (DB * Z)) (w : World) :
  Exec ins w =
  (Ret (fst (exec1 ins (fst (pop (exec_faults w))) (tx w))),
   set_tx w (snd (exec1 ins (fst (pop (exec_faults w))) (tx w)))
          (snd (pop (exec_faults w)))).
Proof.
  unfold Exec, exec1, set_tx.
  destruct (pop (exec_faults w)) as [failed rest]; simpl.
  destruct failed; [reflexivity|].
  destruct (tx w) as [d|]; [|reflexivity].
  destruct (ins d) as [[d' id]|]; reflexivity.
Qed.

Lemma Commit_begun (w : World) (t : option DB) (faults : list bool) :
  Commit (set_tx (begun w) t faults) = (Ret tt, committed w t faults).
Proof.
  unfold Commit, committed, set_tx, begun; cbn.
  rewrite <- app_assoc. reflexivity.
Qed.

Lemma bind_Ret {A B : Type} (m : M A) (k : A -> M B) (w w' : World) (a : A) :
  m w = (Ret a, w') -> bind m k w = k a w'.
Proof. unfold bind; intros ->; reflexivity. Qed.

(** The reads through [p.Database] depend on the committed contents
    only, and leave the world as it is. *)

Lemma GetUser_ok (username : string) (w : World) :
  prepare_faults w = [] ->
  GetUser username w =
  (Ret (match select_user_by_username (store w) username with
        | Some r => (Some (mkUser (ur_id r) username (bytes (ur_password r))), true)
        | None => (None, false)
        end), w).
Proof.
  intros H. unfold GetUser.
  rewrite (bind_Ret _ _ _ _ _ (Prepare_ok w H)).
  unfold bind, QueryRow.
  destruct (select_user_by_username (store w) username); reflexivity.
Qed.

Lemma GetUserById_ok (id : Z) (w : World) :
  prepare_faults w = [] ->
  GetUserById id w =
  (Ret (match select_user_by_id (store w) id with
        | Some r => (Some (mkUser id (ur_username r) (bytes (ur_password r))), None)
        | None => (None, Some ErrNoRows)
        end), w).
Proof.
  intros H. unfold GetUserById.
  rewrite (bind_Ret _ _ _ _ _ (Prepare_ok w H)).
  unfold bind, QueryRow.
  destruct (select_user_by_id (store w) id); reflexivity.
Qed.

Lemma GetChannel_ok (u : User) (slug : string) (w : World) :
  prepare_faults w = [] ->
  GetChannel u slug w =
  (Ret (match select_channel (store w) (Id u) slug with
        | Some r => (Some (mkChannel (cr_id r) (Some u) slug (cr_label r)), None)
        | None => (None, Some ErrNoRows)
        end), w).
Proof.
  intros H. unfold GetChannel.
  rewrite (bind_Ret _ _ _ _ _ (Prepare_ok w H)).
  unfold bind, QueryRow.
  destruct (select_channel (store w) (Id u) slug); reflexivity.
Qed.

Lemma GetPost_ok (id : Z) (w : World) :
  prepare_faults w = [] ->
  GetPost id w =
  (Ret (match select_post_by_id (store w) id with
        | None => (None, Some ErrNoRows)
        | Some r =>
            match select_user_by_id (store w) (pr_user_id r) with
            | None => (None, Some ErrNoRows)
            | Some ur =>
                (Some (mkPost id (pr_uuid r)
                         (Some (mkUser (pr_user_id r) (ur_username ur)
                                       (bytes (ur_password ur))))
                         (pr_body r) (pr_posted r)), None)
            end
        end), w).
Proof.
  intros H. unfold GetPost.
  rewrite (bind_Ret _ _ _ _ _ (Prepare_ok w H)).
  unfold bind at 1. unfold QueryRow.
  destruct (select_post_by_id (store w) id) as [r|]; [|reflexivity].
  unfold bind. rewrite (GetUserById_ok _ _ H).
  destruct (select_user_by_id (store w) (pr_user_id r)); reflexivity.
Qed.

(** ** The loop of AddChannels *)

Section AddChannelsLoop.

Variable ToLower : string -> string.

Lemma nonempty_eqb (label : string) :
  nonempty label = negb (String.eqb label "").
Proof. reflexivity. Qed.

Lemma reported_ext (u : User) (names : list string) (w1 w2 : World) :
  store w1 = store w2 ->
  prepare_faults w1 = [] -> prepare_faults w2 = [] ->
  reported ToLower u names w1 = reported ToLower u names w2.
Proof.
  intros Hs H1 H2. unfold reported.
  apply flat_map_ext; intros label.
  rewrite (GetChannel_ok _ _ _ H1), (GetChannel_ok _ _ _ H2), Hs.
  reflexivity.
Qed.

(** The loop from a world whose [Prepare] calls succeed: what it has
    appended to [created], and the working copy it leaves. *)
Lemma AddChannels_names_eq (u : User) (names : list string) :
  forall (created : list (option Channel)) (w : World),
    prepare_faults w = [] ->
    AddChannels_names ToLower u names created w =
    (Ret (created ++ reported ToLower u names w),
     set_tx w
       (fst (run_stmts (channel_stmts ToLower u names) (exec_faults w) (tx w)))
       (snd (run_stmts (channel_stmts ToLower u names) (exec_faults w) (tx w)))).
Proof.
  induction names as [|label rest IH]; intros created w Hp.
  - simpl. rewrite app_nil_r, set_tx_id. reflexivity.
  - cbn [AddChannels_names].
    unfold channel_stmts, reported. cbn [filter flat_map map].
    rewrite nonempty_eqb.
    destruct (String.eqb label "") eqn:E; cbn [negb].
    + rewrite IH by assumption. reflexivity.
    + cbn [map run_stmts].
      unfold bind at 1. rewrite Exec_eq.
      set (w1 := set_tx w _ _).
      assert (Hp1 : prepare_faults w1 = []) by exact Hp.
      unfold bind. rewrite (GetChannel_ok u _ w1 Hp1), (GetChannel_ok u _ w Hp).
      change (store w1) with (store w).
      cbn [fst].
      destruct (select_channel (store w) (Id u) (slug_of ToLower label)) as [r|].
      * rewrite IH by assumption.
        rewrite (reported_ext u rest w1 w eq_refl Hp1 Hp).
        reflexivity.
      * rewrite IH by assumption.
        rewrite (reported_ext u rest w1 w eq_refl Hp1 Hp).
        rewrite <- app_assoc. reflexivity.
Qed.

(** [AddChannels] on a working storage handle, whatever the outcomes
    of its inserts. *)
Lemma AddChannels_eq (u : User) (names : list string) (w : World) :
  storage_ok w ->
  AddChannels ToLower u names w =
  (Ret (reported ToLower u names w, None),
   committed w
     (fst (run_stmts (channel_stmts ToLower u names) (exec_faults w) (Some (store w))))
     (snd (run_stmts (channel_stmts ToLower u names) (exec_faults w) (Some (store w))))).
Proof.
  intros [Hb Hp]. unfold AddChannels.
  rewrite (bind_Ret _ _ _ _ _ (Begin_ok w Hb)).
  assert (Hp1 : prepare_faults (begun w) = []) by exact Hp.
  rewrite (bind_Ret _ _ _ _ _ (Prepare_ok _ Hp1)).
  unfold bind. rewrite (AddChannels_names_eq u names [] (begun w) Hp1).
  rewrite (reported_ext u names (begun w) w eq_refl Hp1 Hp).
  rewrite Commit_begun. reflexivity.
Qed.

End AddChannelsLoop.

(** ** Lookups of users *)

Lemma find_none_iff {A : Type} (f : A -> bool) (l : list A) :
  find f l = None <-> (forall x, In x l -> f x = false).
Proof.
  split.
  - intros H x Hx. exact (find_none f l H x Hx).
  - induction l as [|a l IH]; intros H; [reflexivity|].
    simpl. rewrite (H a (or_introl eq_refl)).
    apply IH. intros x Hx. apply H. right. exact Hx.
Qed.

(** C6: when no stored row carries the username, [GetUser] returns the
    nil user with the flag [false] and has no error to return; when no
    stored row carries the identifier, [GetUserById] returns the nil
    user together with the error of the failed scan
    ([sql.ErrNoRows]). *)
Theorem GetUser_missing_flag_GetUserById_missing_error
        (username : string) (id : Z) (w : World) :
  storage_ok w ->
  (forall r, In r (users (store w)) -> ur_username r <> username) ->
  (forall r, In r (users (store w)) -> ur_id r <> id) ->
  GetUser username w = (Ret (None, false), w) /\
  GetUserById id w = (Ret (None, Some ErrNoRows), w).
Proof.
  intros [_ Hp] Hname Hid. split.
  - rewrite (GetUser_ok _ _ Hp).
    replace (select_user_by_username (store w) username) with (@None UserRow);
      [reflexivity|].
    symmetry. apply find_none_iff. intros r Hr.
    apply String.eqb_neq. exact (Hname r Hr).
  - rewrite (GetUserById_ok _ _ Hp).
    replace (select_user_by_id (store w) id) with (@None UserRow);
      [reflexivity|].
    symmetry. apply find_none_iff. intros r Hr.
    apply Z.eqb_neq. exact (Hid r Hr).
Qed.

(** ** AddChannels *)

Section AddChannelsResults.

Variable ToLower : string -> string.

(** One iteration for a non-empty label, in any world: the insert is
    executed, [GetChannel] is run on the world the insert leaves, and
    its channel is appended exactly when it came with an error. *)
Lemma AddChannels_names_step (u : User) (label : string) (rest : list string)
      (created : list (option Channel)) (w : World) :
  label <> "" ->
  AddChannels_names ToLower u (label :: rest) created w =
  match GetChannel u (slug_of ToLower label)
                   (snd (Exec (insert_channel (Id u) (slug_of ToLower label) label) w))
  with
  | (Ret (c, Some _), w2) => AddChannels_names ToLower u rest (created ++ [c]) w2
  | (Ret (_, None), w2) => AddChannels_names ToLower u rest created w2
  | (Fatal, w2) => (Fatal, w2)
  | (Panic, w2) => (Panic, w2)
  end.
Proof.
  intros Hl. cbn [AddChannels_names].
  apply String.eqb_neq in Hl. rewrite Hl.
  unfold bind at 1. rewrite Exec_eq. cbn [snd].
  unfold bind.
  destruct (GetChannel u (slug_of ToLower label) _) as [[[c [e|]]| |] w2];
    reflexivity.
Qed.

(** C1: on a working storage handle [AddChannels] returns, with a nil
    error, exactly [reported]: going through the labels in order, the
    channel that [GetChannel] gave for the slug of a non-empty label is
    in the list when that lookup returned an error, and nothing is in
    the list for a label whose lookup succeeded. *)
Theorem AddChannels_reports_only_failed_lookups
        (u : User) (names : list string) (w : World) :
  storage_ok w ->
  exists w',
    AddChannels ToLower u names w = (Ret (reported ToLower u names w, None), w').
Proof.
  intros Hok. eexists. apply AddChannels_eq. exact Hok.
Qed.

Lemma GetChannel_nil_iff_error (u : User) (slug : string) (w w' : World)
      (c : option Channel) (err : option error) :
  GetChannel u slug w = (Ret (c, err), w') -> (c = None <-> err <> None).
Proof.
  unfold GetChannel, bind, Prepare, QueryRow, log_Fatal, ret.
  destruct (pop (prepare_faults w)) as [[|] rest]; cbn; [discriminate|].
  destruct (select_channel (store w) (Id u) slug) as [r|];
    intros H; inversion H; subst; split; intros H'; congruence.
Qed.

Lemma AddChannels_names_nil (u : User) (names : list string) :
  forall (created created' : list (option Channel)) (w w' : World),
    AddChannels_names ToLower u names created w = (Ret created', w') ->
    Forall (fun c => c = None) created ->
    Forall (fun c => c = None) created'.
Proof.
  induction names as [|label rest IH]; intros created created' w w' H Hc.
  - inversion H; subst. exact Hc.
  - destruct (String.eqb label "") eqn:E.
    + cbn [AddChannels_names] in H. rewrite E in H. exact (IH _ _ _ _ H Hc).
    + apply String.eqb_neq in E.
      rewrite (AddChannels_names_step u label rest created w E) in H.
      destruct (GetChannel u (slug_of ToLower label) _)
        as [[[c [e|]]| |] w2] eqn:G; try discriminate.
      * apply (IH _ _ _ _ H). apply Forall_app. split; [exact Hc|].
        constructor; [|constructor].
        apply (GetChannel_nil_iff_error _ _ _ _ _ _ G). discriminate.
      * exact (IH _ _ _ _ H Hc).
Qed.

(** C10: whenever [AddChannels] returns, every element of the returned
    slice is the nil pointer; and [GetChannel] returns a nil channel
    exactly when it returns an error. *)
Theorem AddChannels_created_all_nil
        (u : User) (names : list string) (w w' : World)
        (created : list (option Channel)) (err : option error) :
  AddChannels ToLower u names w = (Ret (created, err), w') ->
  Forall (fun c => c = None) created /\
  (forall slug w0 w1 c e,
      GetChannel u slug w0 = (Ret (c, e), w1) -> (c = None <-> e <> None)).
Proof.
  intros H. split.
  - unfold AddChannels, bind in H.
    destruct (Begin w) as [[[e|]| |] w1]; try discriminate.
    destruct (Prepare w1) as [[[e|]| |] w2]; try discriminate.
    destruct (AddChannels_names ToLower u names [] w2) as [[cr| |] w3] eqn:L;
      try discriminate.
    cbn in H. inversion H; subst.
    exact (AddChannels_names_nil u names [] _ _ _ L (Forall_nil _)).
  - intros slug w0 w1 c e G. exact (GetChannel_nil_iff_error _ _ _ _ _ _ G).
Qed.

Lemma AddChannels_names_filter (u : User) (names : list string) :
  forall (created : list (option Channel)) (w : World),
    AddChannels_names ToLower u names created w =
    AddChannels_names ToLower u (filter nonempty names) created w.
Proof.
  induction names as [|label rest IH]; intros created w; [reflexivity|].
  cbn [filter]. rewrite nonempty_eqb.
  destruct (String.eqb label "") eqn:E; cbn [negb].
  - cbn [AddChannels_names]. rewrite E. apply IH.
  - apply String.eqb_neq in E.
    rewrite !(AddChannels_names_step u label _ created w E).
    destruct (GetChannel u (slug_of ToLower label) _) as [[[c [e|]]| |] w2];
      try reflexivity; apply IH.
Qed.

(** C5: in any world, [AddChannels] on a list of labels is [AddChannels]
    on the list without its empty labels: same returned value, same
    world afterwards (and so no row for an empty label). *)
Theorem AddChannels_ignores_empty_labels
        (u : User) (names : list string) (w : World) :
  AddChannels ToLower u names w =
  AddChannels ToLower u (filter nonempty names) w.
Proof.
  unfold AddChannels, bind.
  destruct (Begin w) as [[[e|]| |] w1]; try reflexivity.
  destruct (Prepare w1) as [[[e|]| |] w2]; try reflexivity.
  rewrite (AddChannels_names_filter u names [] w2). reflexivity.
Qed.

End AddChannelsResults.

(** ** GetAllPosts *)

Lemma GetAllPosts_rows_eq (rows : list PostRow) :
  forall (posts : list (option Post)) (w : World),
    prepare_faults w = [] ->
    GetAllPosts_rows rows posts w = (Ret (posts ++ resolved w rows), w).
Proof.
  induction rows as [|r rest IH]; intros posts w Hp.
  - simpl. rewrite app_nil_r. reflexivity.
  - cbn [GetAllPosts_rows]. unfold bind at 1. unfold resolved. cbn [flat_map].
    rewrite (GetUserById_ok _ _ Hp). cbn [fst].
    destruct (select_user_by_id (store w) (pr_user_id r)) as [ur|].
    + rewrite IH by assumption. rewrite <- app_assoc. reflexivity.
    + rewrite IH by assumption. reflexivity.
Qed.

Lemma GetAllPosts_eq (limit offset : Z) (w : World) :
  prepare_faults w = [] ->
  GetAllPosts limit offset w =
  (Ret (resolved w (select_all_posts (store w) limit offset), None), w).
Proof.
  intros Hp. unfold GetAllPosts.
  rewrite (bind_Ret _ _ _ _ _ (Prepare_ok w Hp)).
  unfold bind, Query. rewrite (GetAllPosts_rows_eq _ [] w Hp). reflexivity.
Qed.

(** C7: on a working storage handle [GetAllPosts] returns, with a nil
    error and for every limit and offset, the posts of the fetched rows
    whose owner [GetUserById] resolves; a row whose owner is not
    resolved gives no post and no error. *)
Theorem GetAllPosts_skips_unresolved_users (limit offset : Z) (w : World) :
  storage_ok w ->
  GetAllPosts limit offset w =
  (Ret (resolved w (select_all_posts (store w) limit offset), None), w).
Proof.
  intros [_ Hp]. exact (GetAllPosts_eq limit offset w Hp).
Qed.

Lemma resolved_posts_of (w : World) (rows : list PostRow) :
  prepare_faults w = [] ->
  resolved w rows = map Some (posts_of (store w) rows).
Proof.
  intros Hp. unfold resolved, posts_of.
  induction rows as [|r rest IH]; [reflexivity|].
  cbn [flat_map]. rewrite map_app, <- IH.
  rewrite (GetUserById_ok _ _ Hp). cbn [fst].
  destruct (select_user_by_id (store w) (pr_user_id r)); reflexivity.
Qed.

Lemma posts_of_app (d : DB) (l1 l2 : list PostRow) :
  posts_of d (l1 ++ l2) = posts_of d l1 ++ posts_of d l2.
Proof. unfold posts_of. apply flat_map_app. Qed.

Lemma posts_of_cons (d : DB) (r : PostRow) (rest : list PostRow) :
  posts_of d (r :: rest) =
  match select_user_by_id d (pr_user_id r) with
  | Some ur =>
      [mkPost (pr_id r) (pr_uuid r)
              (Some (mkUser (pr_user_id r) (ur_username ur) (bytes (ur_password ur))))
              (pr_body r) (pr_posted r)]
  | None => []
  end ++ posts_of d rest.
Proof. reflexivity. Qed.

Lemma posts_of_In (d : DB) (rows : list PostRow) (p : Post) :
  In p (posts_of d rows) ->
  exists r, In r rows /\ pr_id r = pId p /\ pr_posted r = Posted p.
Proof.
  unfold posts_of. rewrite in_flat_map. intros [r [Hr Hp]].
  exists r. split; [exact Hr|].
  destruct (select_user_by_id d (pr_user_id r)); [|contradiction].
  destruct Hp as [<-|[]]. split; reflexivity.
Qed.

Lemma posts_of_length (d : DB) (rows : list PostRow) :
  (List.length (posts_of d rows) <= List.length rows)%nat.
Proof.
  induction rows as [|r rest IH]; [apply le_n|].
  rewrite posts_of_cons, length_app.
  destruct (select_user_by_id d (pr_user_id r)); simpl; lia.
Qed.

Lemma posts_of_sorted (d : DB) (rows : list PostRow) :
  StronglySorted (fun r s => pr_posted s <= pr_posted r) rows ->
  StronglySorted newer_first (posts_of d rows).
Proof.
  induction 1 as [|r rest Hs IH Hr]; [constructor|].
  rewrite posts_of_cons.
  destruct (select_user_by_id d (pr_user_id r)); [|exact IH].
  cbn [app]. constructor; [exact IH|].
  apply Forall_forall. intros q Hq.
  destruct (posts_of_In d rest q Hq) as [s [Hin [_ Hposted]]].
  unfold newer_first. cbn [Posted]. rewrite <- Hposted.
  rewrite Forall_forall in Hr. exact (Hr s Hin).
Qed.

(** The ordering of the engine. *)

Lemma insert_desc_perm (r : PostRow) (l : list PostRow) :
  Permutation (r :: l) (insert_desc r l).
Proof.
  induction l as [|x rest IH]; [apply Permutation_refl|].
  cbn [insert_desc]. destruct (Z.ltb (pr_posted x) (pr_posted r)).
  - apply Permutation_refl.
  - apply perm_trans with (x :: r :: rest); [apply perm_swap|].
    apply perm_skip. exact IH.
Qed.

Lemma order_by_posted_desc_perm (l : list PostRow) :
  Permutation l (order_by_posted_desc l).
Proof.
  induction l as [|r rest IH]; [apply perm_nil|].
  cbn. apply perm_trans with (r :: order_by_posted_desc rest).
  - apply perm_skip. exact IH.
  - apply insert_desc_perm.
Qed.

Lemma insert_desc_sorted (r : PostRow) (l : list PostRow) :
  StronglySorted (fun a b => pr_posted b <= pr_posted a) l ->
  StronglySorted (fun a b => pr_posted b <= pr_posted a) (insert_desc r l).
Proof.
  induction 1 as [|x rest Hs IH Hx].
  - cbn. constructor; constructor.
  - cbn [insert_desc]. destruct (Z.ltb (pr_posted x) (pr_posted r)) eqn:E.
    + apply Z.ltb_lt in E. constructor.
      * constructor; assumption.
      * constructor; [lia|].
        rewrite Forall_forall in *. intros y Hy. specialize (Hx y Hy). lia.
    + apply Z.ltb_ge in E. constructor; [exact IH|].
      rewrite Forall_forall in *. intros y Hy.
      apply (Permutation_in _ (Permutation_sym (insert_desc_perm r rest))) in Hy.
      destruct Hy as [<-|Hy]; [exact E|exact (Hx y Hy)].
Qed.

Lemma order_by_posted_desc_sorted (l : list PostRow) :
  StronglySorted (fun a b => pr_posted b <= pr_posted a) (order_by_posted_desc l).
Proof.
  induction l as [|r rest IH]; [constructor|].
  cbn. apply insert_desc_sorted. exact IH.
Qed.

Lemma In_firstn {A : Type} (n : nat) (l : list A) (x : A) :
  In x (firstn n l) -> In x l.
Proof.
  intros H. rewrite <- (firstn_skipn n l). apply in_or_app. left. exact H.
Qed.

Lemma In_skipn {A : Type} (n : nat) (l : list A) (x : A) :
  In x (skipn n l) -> In x l.
Proof.
  intros H. rewrite <- (firstn_skipn n l). apply in_or_app. right. exact H.
Qed.

Lemma NoDup_app_disjoint {A : Type} (l1 l2 : list A) (x : A) :
  NoDup (l1 ++ l2) -> In x l1 -> ~ In x l2.
Proof.
  induction l1 as [|a l1 IH]; intros Hn H1 H2; [contradiction|].
  cbn in Hn. inversion Hn as [|? ? Hnotin Hn']; subst.
  destruct H1 as [->|H1].
  - apply Hnotin. apply in_or_app. right. exact H2.
  - exact (IH Hn' H1 H2).
Qed.

Lemma StronglySorted_firstn {A : Type} (R : A -> A -> Prop) (n : nat) (l : list A) :
  StronglySorted R l -> StronglySorted R (firstn n l).
Proof.
  revert n. induction l as [|a l IH]; intros n H.
  - rewrite firstn_nil. constructor.
  - destruct n as [|n]; [constructor|].
    cbn [firstn]. inversion H as [|? ? Hs Hf]; subst.
    constructor; [apply IH; exact Hs|].
    rewrite Forall_forall in *. intros x Hx.
    apply Hf. exact (In_firstn _ _ x Hx).
Qed.

Lemma firstn_twice {A : Type} (n : nat) (l : list A) :
  firstn (n + n) l = firstn n l ++ firstn n (skipn n l).
Proof.
  rewrite <- (firstn_skipn n l) at 1.
  rewrite firstn_app.
  rewrite firstn_firstn.
  replace (Nat.min (n + n) n) with n by lia.
  f_equal. rewrite length_firstn.
  destruct (Nat.le_gt_cases n (List.length l)) as [Hle|Hgt].
  - replace (n + n - Nat.min n (List.length l))%nat with n by lia. reflexivity.
  - rewrite (skipn_all2 l) by lia. rewrite !firstn_nil. reflexivity.
Qed.

Lemma select_all_posts_page (d : DB) (limit offset : Z) :
  0 <= limit ->
  select_all_posts d limit offset =
  firstn (Z.to_nat limit) (skipn (Z.to_nat offset) (order_by_posted_desc (post d))).
Proof.
  intros H. unfold select_all_posts, limit_offset.
  replace (Z.ltb limit 0) with false; [reflexivity|].
  symmetry. apply Z.ltb_ge. exact H.
Qed.

(** C8: for a limit [N >= 0], on a working storage handle whose post
    identifiers are unique, the call with offset 0 returns at most [N]
    posts, newest first; the call with offset [N] that follows returns
    posts none of which has the identifier of a post of the first page;
    and the two pages, one after the other, are what the call with
    limit [2N] and offset 0 returns. *)
Theorem GetAllPosts_pages (N : Z) (w : World) :
  0 <= N ->
  storage_ok w ->
  post_ids_unique (store w) ->
  exists page1 page2 : list Post,
    GetAllPosts N 0 w = (Ret (map Some page1, None), w) /\
    GetAllPosts N N w = (Ret (map Some page2, None), w) /\
    (List.length page1 <= Z.to_nat N)%nat /\
    StronglySorted newer_first page1 /\
    (forall p q, In p page1 -> In q page2 -> pId p <> pId q) /\
    GetAllPosts (2 * N) 0 w = (Ret (map Some (page1 ++ page2), None), w).
Proof.
  intros HN [_ Hp] Hu.
  set (sorted := order_by_posted_desc (post (store w))).
  set (n := Z.to_nat N).
  exists (posts_of (store w) (firstn n sorted)).
  exists (posts_of (store w) (firstn n (skipn n sorted))).
  assert (H2N : Z.to_nat (2 * N) = (n + n)%nat) by (unfold n; lia).
  rewrite !(GetAllPosts_eq _ _ w Hp), !(resolved_posts_of w _ Hp).
  rewrite !select_all_posts_page by lia.
  change (Z.to_nat 0) with 0%nat. cbn [skipn]. fold sorted. fold n.
  rewrite H2N.
  repeat split.
  - eapply Nat.le_trans; [apply posts_of_length|].
    rewrite length_firstn. apply Nat.le_min_l.
  - apply posts_of_sorted. apply StronglySorted_firstn.
    apply order_by_posted_desc_sorted.
  - intros p q Hpin Hqin Heq.
    destruct (posts_of_In _ _ _ Hpin) as [r1 [Hr1 [Hid1 _]]].
    destruct (posts_of_In _ _ _ Hqin) as [r2 [Hr2 [Hid2 _]]].
    assert (Hnd : NoDup (map pr_id (firstn n sorted) ++ map pr_id (skipn n sorted))).
    { rewrite <- map_app, firstn_skipn.
      apply (Permutation_NoDup (l := map pr_id (post (store w)))); [|exact Hu].
      apply Permutation_map. apply order_by_posted_desc_perm. }
    apply (NoDup_app_disjoint _ _ (pId p) Hnd).
    + rewrite <- Hid1. apply in_map. exact Hr1.
    + rewrite Heq, <- Hid2. apply in_map. exact (In_firstn _ _ _ Hr2).
  - rewrite firstn_twice, posts_of_app. reflexivity.
Qed.

(** ** Transactions *)

Lemma exec1_Some (ins : DB -> option (DB * Z)) (failed : bool) (d : DB) :
  exists d', snd (exec1 ins failed (Some d)) = Some d'.
Proof.
  unfold exec1. destruct failed; [exists d; reflexivity|].
  destruct (ins d) as [[d' id]|]; eexists; reflexivity.
Qed.

Lemma run_stmts_Some (stmts : list (DB -> option (DB * Z))) :
  forall (faults : list bool) (d : DB),
  exists d', fst (run_stmts stmts faults (Some d)) = Some d'.
Proof.
  induction stmts as [|ins rest IH]; intros faults d.
  - exists d. reflexivity.
  - cbn [run_stmts].
    destruct (exec1_Some ins (fst (pop faults)) d) as [d1 ->].
    apply IH.
Qed.

Lemma commits_committed (w : World) (stmts : list (DB -> option (DB * Z))) :
  commits w
    (committed w (fst (run_stmts stmts (exec_faults w) (Some (store w))))
               (snd (run_stmts stmts (exec_faults w) (Some (store w)))))
    stmts.
Proof.
  unfold commits, committed. cbn.
  destruct (run_stmts_Some stmts (exec_faults w) (store w)) as [d' ->].
  repeat split.
Qed.

(** ** CreateUser *)

Section CreateUserResults.

Variable SetPassword : string -> string.

Lemma CreateUser_eq (username password : string) (w : World) :
  storage_ok w ->
  let stmts := [insert_user username (SetPassword password)] in
  let w' := committed w (fst (run_stmts stmts (exec_faults w) (Some (store w))))
                      (snd (run_stmts stmts (exec_faults w) (Some (store w)))) in
  CreateUser SetPassword username password w =
  (Ret (match select_user_by_username (store w') username with
        | Some r => Some (mkUser (ur_id r) username (bytes (ur_password r)))
        | None => None
        end, None), w').
Proof.
  intros [Hb Hp] stmts w'. unfold CreateUser.
  rewrite (bind_Ret _ _ _ _ _ (Begin_ok w Hb)).
  assert (Hp1 : prepare_faults (begun w) = []) by exact Hp.
  rewrite (bind_Ret _ _ _ _ _ (Prepare_ok _ Hp1)).
  unfold bind at 1. rewrite Exec_eq.
  unfold bind at 1. rewrite Commit_begun.
  change (committed w _ _) with w'.
  assert (Hp' : prepare_faults w' = []) by exact Hp.
  unfold bind. rewrite (GetUser_ok username w' Hp').
  destruct (select_user_by_username (store w') username); reflexivity.
Qed.

(** C9: on a working storage handle, whatever the outcome of the insert
    (the pending driver failures of [w] are arbitrary and the username
    may be taken), [CreateUser] returns a nil error, has committed its
    transaction, and returns the user that [GetUser] finds afterwards:
    the user stored before the call when the username was taken, and
    nil when the username was free and the driver failed the insert. *)
Theorem CreateUser_error_always_nil (username password : string) (w : World) :
  storage_ok w ->
  exists (w' : World) (u : option User) (found : bool),
    CreateUser SetPassword username password w = (Ret (u, None), w') /\
    commits w w' [insert_user username (SetPassword password)] /\
    GetUser username w' = (Ret (u, found), w') /\
    (forall r, select_user_by_username (store w) username = Some r ->
               u = Some (mkUser (ur_id r) username (bytes (ur_password r)))) /\
    (select_user_by_username (store w) username = None ->
     fst (pop (exec_faults w)) = true -> u = None).
Proof.
  intros Hok. pose proof (CreateUser_eq username password w Hok) as H.
  cbv zeta in H.
  set (stmts := [insert_user username (SetPassword password)]) in *.
  set (w' := committed w _ _) in *.
  assert (Hp' : prepare_faults w' = []) by exact (proj2 Hok).
  exists w'.
  exists (match select_user_by_username (store w') username with
          | Some r => Some (mkUser (ur_id r) username (bytes (ur_password r)))
          | None => None
          end).
  exists (match select_user_by_username (store w') username with
          | Some _ => true
          | None => false
          end).
  split; [exact H|]. split; [apply commits_committed|]. split.
  - rewrite (GetUser_ok username w' Hp').
    destruct (select_user_by_username (store w') username); reflexivity.
  - assert (Hs : store w' =
                 match snd (exec1 (insert_user username (SetPassword password))
                                  (fst (pop (exec_faults w))) (Some (store w))) with
                 | Some d => d
                 | None => store w
                 end) by reflexivity.
    split.
    + intros r Hr. rewrite Hs. unfold exec1, insert_user. rewrite Hr.
      destruct (fst (pop (exec_faults w))); cbn [snd]; rewrite Hr; reflexivity.
    + intros Hnone Hf. rewrite Hs. unfold exec1. rewrite Hf. cbn [snd].
      rewrite Hnone. reflexivity.
Qed.

End CreateUserResults.

(** ** AddPost *)

Lemma AddPost_channels_eq (id : Z) (chans : list Channel) :
  forall w : World,
    AddPost_channels id (map Some chans) w =
    (Ret tt,
     set_tx w
       (fst (run_stmts (map (fun c => insert_postchannel id (cId c)) chans)
                       (exec_faults w) (tx w)))
       (snd (run_stmts (map (fun c => insert_postchannel id (cId c)) chans)
                       (exec_faults w) (tx w)))).
Proof.
  induction chans as [|c rest IH]; intros w.
  - cbn. rewrite set_tx_id. reflexivity.
  - cbn [map AddPost_channels run_stmts].
    unfold bind. rewrite Exec_eq. rewrite IH. reflexivity.
Qed.

(** [GetPost] already returns a nil post with its errors, so that the
    last test of [AddPost] changes nothing. *)
Lemma AddPost_tail (id : Z) (w : World) :
  prepare_faults w = [] ->
  bind (GetPost id)
       (fun x => match x with
                 | (post, Some err) => ret (None, Some err)
                 | (post, None) => ret (post, None)
                 end) w
  = GetPost id w.
Proof.
  intros Hp. unfold bind. rewrite (GetPost_ok id w Hp).
  destruct (select_post_by_id (store w) id) as [r|]; [|reflexivity].
  destruct (select_user_by_id (store w) (pr_user_id r)); reflexivity.
Qed.

(** [AddPost] once the token is generated and the post row inserted,
    whatever happens to the join rows. *)
Lemma AddPost_eq (u : User) (body u4 : string) (rest : list string)
      (chans : list Channel) (id : Z) (t1 : option DB) (w : World) :
  storage_ok w ->
  entropy w = u4 :: rest ->
  exec1 (insert_post (Id u) u4 body (now w)) (fst (pop (exec_faults w)))
        (Some (store w)) = (inl id, t1) ->
  exists w' : World,
    AddPost u body (map Some chans) w = GetPost id w' /\
    commits w w' (post_stmts u u4 body (now w) id chans) /\
    prepare_faults w' = [] /\
    GetPost id w' = (fst (GetPost id w'), w').
Proof.
  intros [Hb Hp] He Hx.
  set (stmts := post_stmts u u4 body (now w) id chans).
  set (run := run_stmts stmts (exec_faults w) (Some (store w))).
  exists (mkWorld (match fst run with Some d => d | None => store w end) None
                  (begin_faults w) (prepare_faults w) (snd run) rest (now w)
                  (txlog w ++ [TxBegin; TxCommit])).
  set (w' := mkWorld _ _ _ _ _ _ _ _).
  assert (Hp' : prepare_faults w' = []) by exact Hp.
  split; [|split; [|split]].
  - unfold AddPost.
    rewrite (bind_Ret _ _ _ _ _ (Begin_ok w Hb)).
    unfold bind at 1. unfold NewV4. cbn [entropy begun]. rewrite He.
    set (w2 := mkWorld _ _ _ _ _ rest _ _).
    assert (Hp2 : prepare_faults w2 = []) by exact Hp.
    rewrite (bind_Ret _ _ _ _ _ (Prepare_ok _ Hp2)).
    unfold bind at 1. unfold time_Now_Unix.
    unfold bind at 1. rewrite Exec_eq.
    change (now w2) with (now w). change (exec_faults w2) with (exec_faults w).
    change (tx w2) with (Some (store w)).
    rewrite Hx. cbn [fst snd LastInsertId].
    set (w3 := set_tx w2 t1 _).
    assert (Hp3 : prepare_faults w3 = []) by exact Hp.
    rewrite (bind_Ret _ _ _ _ _ (Prepare_ok _ Hp3)).
    unfold bind at 1. rewrite AddPost_channels_eq.
    unfold bind at 1. unfold Commit. cbn [tx set_tx].
    match goal with
    | |- bind _ _ ?x = _ => replace x with w'
    end.
    + apply (AddPost_tail id w' Hp').
    + unfold w', run, stmts, post_stmts. cbn [run_stmts]. rewrite Hx.
      cbn [snd store set_tx begin_faults prepare_faults exec_faults entropy now txlog w2 w3].
      unfold w3, w2. cbn. rewrite <- app_assoc. reflexivity.
  - unfold commits. cbn [txlog tx store w'].
    unfold run. destruct (run_stmts_Some stmts (exec_faults w) (store w)) as [d' ->].
    repeat split.
  - exact Hp'.
  - rewrite (GetPost_ok id w' Hp'). reflexivity.
Qed.

Lemma next_id_fresh (ids : list Z) (x : Z) : In x ids -> x < next_id ids.
Proof.
  unfold next_id. induction ids as [|a ids IH]; [contradiction|].
  cbn [fold_right]. intros [->|H]; [lia|]. specialize (IH H). lia.
Qed.

Lemma find_app_last {A : Type} (f : A -> bool) (l : list A) (x : A) :
  (forall y, In y l -> f y = false) -> f x = true -> find f (l ++ [x]) = Some x.
Proof.
  intros Hl Hx. induction l as [|a l IH]; cbn.
  - rewrite Hx. reflexivity.
  - rewrite (Hl a (or_introl eq_refl)). apply IH.
    intros y Hy. apply Hl. right. exact Hy.
Qed.

Lemma find_app_first {A : Type} (f : A -> bool) (l l' : list A) (x : A) :
  find f l = Some x -> find f (l ++ l') = Some x.
Proof.
  induction l as [|a l IH]; cbn; [discriminate|].
  destruct (f a); [trivial|exact IH].
Qed.

(** The join-row inserts have no constraint to violate: each one that
    the driver does not fail appends its row. *)
Lemma run_stmts_joins (id : Z) (chans : list Channel) :
  forall (faults : list bool) (d : DB),
    fst (run_stmts (map (fun c => insert_postchannel id (cId c)) chans) faults (Some d))
    = Some (mkDB (users d) (channel d) (post d)
                 (postchannel d ++ map (fun c => (id, cId c)) (kept faults chans))).
Proof.
  induction chans as [|c rest IH]; intros faults d.
  - cbn. rewrite app_nil_r. destruct d; reflexivity.
  - cbn [map run_stmts kept]. unfold exec1.
    destruct (fst (pop faults)).
    + cbn [snd]. apply IH.
    + cbn [insert_postchannel snd]. rewrite IH. cbn.
      rewrite <- app_assoc. reflexivity.
Qed.

(** C2: on a working storage handle, with a token from the random
    source that no stored post carries and a post-row insert that the
    driver does not fail, [AddPost] ends as the re-read [GetPost] of the
    new identifier ends in the world it leaves.  In that world the one
    transaction of the call is committed, the post table has the new
    row (with the token, the owner, the body and the time of the call),
    and the join table has one new row for every channel whose insert
    the driver did not fail: one per channel when none fails, and the
    others all the same when some fail.  When the owner is a stored
    user, the re-read gives the post. *)
Theorem AddPost_commits_and_rereads
        (u : User) (body u4 : string) (rest : list string)
        (chans : list Channel) (w : World) :
  storage_ok w ->
  entropy w = u4 :: rest ->
  (forall r, In r (post (store w)) -> pr_uuid r <> u4) ->
  fst (pop (exec_faults w)) = false ->
  exists (w' : World) (id : Z),
    AddPost u body (map Some chans) w = GetPost id w' /\
    id = next_id (map pr_id (post (store w))) /\
    txlog w' = txlog w ++ [TxBegin; TxCommit] /\
    tx w' = None /\
    users (store w') = users (store w) /\
    channel (store w') = channel (store w) /\
    post (store w') = post (store w) ++ [mkPostRow id u4 (Id u) body (now w)] /\
    postchannel (store w') =
      postchannel (store w)
      ++ map (fun c => (id, cId c)) (kept (snd (pop (exec_faults w))) chans) /\
    (forall ur, select_user_by_id (store w) (Id u) = Some ur ->
       GetPost id w' =
       (Ret (Some (mkPost id u4
                     (Some (mkUser (Id u) (ur_username ur) (bytes (ur_password ur))))
                     body (now w)), None), w')).
Proof.
  intros Hok He Hfresh Hf.
  set (id := next_id (map pr_id (post (store w)))).
  set (row := mkPostRow id u4 (Id u) body (now w)).
  set (d1 := mkDB (users (store w)) (channel (store w)) (post (store w) ++ [row])
                  (postchannel (store w))).
  assert (Hx : exec1 (insert_post (Id u) u4 body (now w)) (fst (pop (exec_faults w)))
                     (Some (store w)) = (inl id, Some d1)).
  { unfold exec1, insert_post. rewrite Hf.
    replace (find (fun r => String.eqb (pr_uuid r) u4) (post (store w)))
      with (@None PostRow); [reflexivity|].
    symmetry. apply find_none_iff. intros r Hr.
    apply String.eqb_neq. exact (Hfresh r Hr). }
  destruct (AddPost_eq u body u4 rest chans id (Some d1) w Hok He Hx)
    as [w' [Hrun [[Hlog [Htx Hstore]] [Hp' _]]]].
  exists w', id.
  unfold post_stmts in Hstore. cbn [run_stmts] in Hstore.
  rewrite Hx in Hstore. cbn [snd] in Hstore.
  rewrite run_stmts_joins in Hstore. inversion Hstore as [Hs].
  repeat split; try assumption; try reflexivity;
    try (rewrite Hs; reflexivity).
  intros ur Hur. rewrite (GetPost_ok id w' Hp'). rewrite Hs.
  unfold select_post_by_id, select_user_by_id. cbn [post users d1].
  rewrite (find_app_last (fun r => Z.eqb (pr_id r) id) (post (store w)) row).
  - cbn [pr_user_id row pr_uuid pr_body pr_posted].
    unfold select_user_by_id in Hur. rewrite Hur. reflexivity.
  - intros y Hy. apply Z.eqb_neq.
    pose proof (next_id_fresh (map pr_id (post (store w))) (pr_id y)
                              (in_map pr_id _ _ Hy)) as Hlt.
    fold id in Hlt. lia.
  - apply Z.eqb_refl.
Qed.

(** ** Commit and statement errors *)

(** C3, as stated, fails for [AddPost]: when the driver fails the
    post-row insert, [AddPost] returns the error with its transaction
    begun and never committed. *)
Lemma AddPost_failed_insert_not_committed :
  storage_ok (world_of db_alice [true] ["token-1"]) /\
  fst (AddPost alice "hello world" [] (world_of db_alice [true] ["token-1"]))
  = Ret (None, Some ErrDriver) /\
  txlog (snd (AddPost alice "hello world" [] (world_of db_alice [true] ["token-1"])))
  = [TxBegin] /\
  tx (snd (AddPost alice "hello world" [] (world_of db_alice [true] ["token-1"])))
  = Some db_alice /\
  (forall stmts,
      ~ returns_committing (AddPost alice "hello world" [])
          (world_of db_alice [true] ["token-1"]) stmts).
Proof.
  repeat split.
  intros stmts [r [w' [H [Hlog _]]]].
  vm_compute in H. inversion H; subst. vm_compute in Hlog. discriminate.
Qed.

(** C3, amended: on a working storage handle and whatever the outcome
    of the statements executed (the pending driver failures are
    arbitrary, and so are the rows that may violate a constraint),
    [CreateUser] and [AddChannels] return with their transaction
    committed, and so does [AddPost] once the token is generated and
    the post-row insert has succeeded.  The committed contents are
    those left by the statements in order, a failed statement having
    changed nothing; [Begin] and [Commit] are the only life-cycle calls
    made, so nothing is rolled back. *)
Theorem transactions_commit_despite_statement_errors
        (ToLower SetPassword : string -> string) (w : World) :
  storage_ok w ->
  (forall username password,
      returns_committing (CreateUser SetPassword username password) w
        [insert_user username (SetPassword password)]) /\
  (forall u names,
      returns_committing (AddChannels ToLower u names) w
        (channel_stmts ToLower u names)) /\
  (forall u body chans u4 rest id t1,
      entropy w = u4 :: rest ->
      exec1 (insert_post (Id u) u4 body (now w)) (fst (pop (exec_faults w)))
            (Some (store w)) = (inl id, t1) ->
      returns_committing (AddPost u body (map Some chans)) w
        (post_stmts u u4 body (now w) id chans)).
Proof.
  intros Hok. split; [|split].
  - intros username password. unfold returns_committing.
    pose proof (CreateUser_eq SetPassword username password w Hok) as H.
    cbv zeta in H. rewrite H. do 2 eexists. split; [reflexivity|].
    apply commits_committed.
  - intros u names. unfold returns_committing.
    rewrite (AddChannels_eq ToLower u names w Hok).
    do 2 eexists. split; [reflexivity|]. apply commits_committed.
  - intros u body chans u4 rest id t1 He Hx. unfold returns_committing.
    destruct (AddPost_eq u body u4 rest chans id t1 w Hok He Hx)
      as [w' [Hrun [Hc [Hp' Hg]]]].
    rewrite Hrun, Hg. destruct (fst (GetPost id w')) as [r| |] eqn:E.
    + exists r, w'. split; [reflexivity|exact Hc].
    + rewrite (GetPost_ok id w' Hp') in E. discriminate.
    + rewrite (GetPost_ok id w' Hp') in E. discriminate.
Qed.

(** ** The channel table *)

Lemma has_key_true (user_id : Z) (slug : string) (r : ChannelRow) :
  has_key user_id slug r = true <-> channel_key r = (user_id, slug).
Proof.
  unfold has_key, channel_key. rewrite andb_true_iff, Z.eqb_eq, String.eqb_eq.
  split; [intros [-> ->]; reflexivity|intros H; inversion H; split; reflexivity].
Qed.

Lemma has_key_none (user_id : Z) (slug : string) (l : list ChannelRow) :
  ~ In (user_id, slug) (map channel_key l) ->
  filter (has_key user_id slug) l = [].
Proof.
  induction l as [|a l IH]; intros H; [reflexivity|].
  cbn [filter]. destruct (has_key user_id slug a) eqn:E.
  - exfalso. apply H. left. apply has_key_true. exact E.
  - apply IH. intros Hin. apply H. right. exact Hin.
Qed.

(** With at most one row per key, a key that is present is found by
    exactly one row. *)
Lemma one_row_per_key (user_id : Z) (slug : string) (l : list ChannelRow) :
  NoDup (map channel_key l) ->
  In (user_id, slug) (map channel_key l) ->
  List.length (filter (has_key user_id slug) l) = 1%nat.
Proof.
  induction l as [|a l IH]; intros Hn Hin; [contradiction|].
  cbn [map] in Hn. inversion Hn as [|? ? Hnotin Hn']; subst.
  cbn [filter]. destruct (has_key user_id slug a) eqn:E.
  - apply has_key_true in E. rewrite E in Hnotin.
    rewrite (has_key_none _ _ _ Hnotin). reflexivity.
  - apply IH; [exact Hn'|].
    destruct Hin as [Hin|Hin]; [|exact Hin].
    apply has_key_true in Hin. congruence.
Qed.

Lemma slugs_of_user_NoDup (user_id : Z) (l : list ChannelRow) :
  NoDup (map channel_key l) ->
  NoDup (map cr_slug (filter (fun r => Z.eqb (cr_user_id r) user_id) l)).
Proof.
  induction l as [|a l IH]; intros Hn; [constructor|].
  cbn [map] in Hn. inversion Hn as [|? ? Hnotin Hn']; subst.
  cbn [filter]. destruct (Z.eqb (cr_user_id a) user_id) eqn:E; [|exact (IH Hn')].
  cbn [map]. constructor; [|exact (IH Hn')].
  intros Hin. apply Hnotin.
  apply in_map_iff in Hin. destruct Hin as [r [Hslug Hr]].
  apply filter_In in Hr. destruct Hr as [Hr Huid].
  apply in_map_iff. exists r. split; [|exact Hr].
  unfold channel_key. apply Z.eqb_eq in E, Huid. congruence.
Qed.

(** What one insert into [channel] that the driver does not fail does
    to a table with at most one row per key. *)
Lemma insert_channel_unique (user_id : Z) (slug label : string) (d : DB) :
  channel_unique d ->
  exists d',
    snd (exec1 (insert_channel user_id slug label) false (Some d)) = Some d' /\
    channel_unique d' /\
    (forall k, In k (map channel_key (channel d)) -> In k (map channel_key (channel d'))) /\
    In (user_id, slug) (map channel_key (channel d')) /\
    (forall k, In k (map channel_key (channel d')) ->
               In k (map channel_key (channel d)) \/ k = (user_id, slug)).
Proof.
  intros Hu. unfold exec1, insert_channel.
  destruct (select_channel d user_id slug) as [r|] eqn:E.
  - exists d. cbn [snd]. repeat split; [exact Hu|trivial| |intros k Hk; left; exact Hk].
    unfold select_channel in E. destruct (find_some _ _ E) as [Hr Hk].
    apply in_map_iff. exists r. split; [|exact Hr].
    apply has_key_true. exact Hk.
  - eexists. cbn [snd]. split; [reflexivity|].
    unfold channel_unique. cbn [channel]. rewrite map_app. cbn [map].
    repeat split; [| | |intros k Hk; apply in_app_or in Hk;
                         destruct Hk as [Hk|[<-|[]]]; [left; exact Hk|right; reflexivity]].
    + apply NoDup_app; [exact Hu|constructor; [intros []|constructor]|].
      intros k Hk [<-|[]].
      apply in_map_iff in Hk. destruct Hk as [r [Hkey Hr]].
      unfold select_channel in E.
      pose proof (find_none _ _ E r Hr) as Hf.
      apply has_key_true in Hkey. unfold has_key in Hkey.
      cbn in Hkey, Hf. congruence.
    + intros k Hk. apply in_or_app. left. exact Hk.
    + apply in_or_app. right. left. reflexivity.
Qed.

Lemma pop_no_fault (faults : list bool) :
  Forall (fun b => b = false) faults ->
  fst (pop faults) = false /\ Forall (fun b => b = false) (snd (pop faults)).
Proof.
  intros H. destruct H as [|b rest Hb Hrest]; cbn; [split; [reflexivity|constructor]|].
  split; assumption.
Qed.

Section ChannelListing.

Variable ToLower : string -> string.

Lemma run_channel_inserts (user_id : Z) (labels : list string) :
  forall (faults : list bool) (d : DB),
    Forall (fun b => b = false) faults ->
    channel_unique d ->
    exists d',
      fst (run_stmts
             (map (fun label => insert_channel user_id (slug_of ToLower label) label) labels)
             faults (Some d)) = Some d' /\
      channel_unique d' /\
      (forall k, In k (map channel_key (channel d)) -> In k (map channel_key (channel d'))) /\
      (forall label, In label labels ->
                     In (user_id, slug_of ToLower label) (map channel_key (channel d'))) /\
      (forall k, In k (map channel_key (channel d')) ->
                 In k (map channel_key (channel d)) \/
                 exists label, In label labels /\ k = (user_id, slug_of ToLower label)).
Proof.
  induction labels as [|label rest IH]; intros faults d Hf Hu.
  - exists d. cbn. repeat split; [exact Hu|trivial|contradiction|].
    intros k Hk. left. exact Hk.
  - cbn [map run_stmts].
    destruct (pop_no_fault faults Hf) as [-> Hf'].
    destruct (insert_channel_unique user_id (slug_of ToLower label) label d Hu)
      as [d1 [-> [Hu1 [Hmono1 [Hin1 Hnew1]]]]].
    destruct (IH (snd (pop faults)) d1 Hf' Hu1)
      as [d' [Hrun [Hu' [Hmono [Hin Hnew]]]]].
    exists d'. repeat split; [exact Hrun|exact Hu'| | |].
    + intros k Hk. apply Hmono, Hmono1. exact Hk.
    + intros l [<-|Hl]; [apply Hmono; exact Hin1|exact (Hin l Hl)].
    + intros k Hk. destruct (Hnew k Hk) as [Hk1|[l [Hl ->]]].
      * destruct (Hnew1 k Hk1) as [Hk0| ->]; [left; exact Hk0|].
        right. exists label. split; [left; reflexivity|reflexivity].
      * right. exists l. split; [right; exact Hl|reflexivity].
Qed.

End ChannelListing.

Lemma fold_left_snoc {A B : Type} (f : A -> B) (rows : list A) :
  forall acc : list B,
    fold_left (fun acc r => acc ++ [f r]) rows acc = acc ++ map f rows.
Proof.
  induction rows as [|r rest IH]; intros acc; cbn.
  - rewrite app_nil_r. reflexivity.
  - rewrite IH, <- app_assoc. reflexivity.
Qed.

Lemma UserChannels_ok (u : User) (w : World) :
  prepare_faults w = [] ->
  UserChannels u w =
  (Ret (map Some
            (map (fun r => mkChannel (cr_id r) None (cr_slug r) (cr_label r))
                 (select_user_channels (store w) (Id u)))), w).
Proof.
  intros Hp. unfold UserChannels.
  rewrite (bind_Ret _ _ _ _ _ (Prepare_ok w Hp)).
  unfold bind, Query, ret.
  rewrite (fold_left_snoc
             (fun r => Some (mkChannel (cr_id r) None (cr_slug r) (cr_label r)))).
  rewrite map_map. reflexivity.
Qed.

Lemma count_slug_rows (user_id : Z) (s : string) (rows : list ChannelRow) :
  count_slug s
    (map (fun r => mkChannel (cr_id r) None (cr_slug r) (cr_label r))
         (filter (fun r => Z.eqb (cr_user_id r) user_id) rows))
  = List.length (filter (has_key user_id s) rows).
Proof.
  unfold count_slug, has_key.
  induction rows as [|r rest IH]; [reflexivity|].
  cbn [filter]. destruct (Z.eqb (cr_user_id r) user_id); cbn [andb map filter Slug].
  - destruct (String.eqb (cr_slug r) s); cbn [List.length]; rewrite IH; reflexivity.
  - exact IH.
Qed.

(** C4: on a working storage handle whose channel table has at most one
    row per user and slug, and with no insert failed by the driver,
    [AddChannels] followed by [UserChannels] for the same user lists,
    for every non-empty label of the call, exactly one channel whose
    slug is [ToLower (Replace label " " "_")]; no two channels of the
    listing have the same slug, so that labels given twice (or labels
    with the same slug) do not show twice; and a listed channel is one
    the user had before the call or has the slug of one of the
    labels. *)
Theorem AddChannels_then_UserChannels
        (ToLower : string -> string) (u : User) (names : list string) (w : World) :
  storage_ok w ->
  no_exec_fault w ->
  channel_unique (store w) ->
  exists (created : list (option Channel)) (w' : World) (listing : list Channel),
    AddChannels ToLower u names w = (Ret (created, None), w') /\
    UserChannels u w' = (Ret (map Some listing), w') /\
    (forall label, In label names -> label <> "" ->
                   count_slug (slug_of ToLower label) listing = 1%nat) /\
    NoDup (map Slug listing) /\
    (forall c, In c listing ->
               In (Id u, Slug c) (map channel_key (channel (store w))) \/
               exists label, In label names /\ label <> "" /\
                             Slug c = slug_of ToLower label).
Proof.
  intros Hok Hf Hu.
  rewrite (AddChannels_eq ToLower u names w Hok).
  unfold channel_stmts.
  destruct (run_channel_inserts ToLower (Id u) (filter nonempty names)
                                (exec_faults w) (store w) Hf Hu)
    as [d' [Hrun [Hu' [_ [Hin Hnew]]]]].
  rewrite Hrun.
  set (w' := committed w (Some d') _).
  assert (Hp' : prepare_faults w' = []) by exact (proj2 Hok).
  exists (reported ToLower u names w), w'.
  exists (map (fun r => mkChannel (cr_id r) None (cr_slug r) (cr_label r))
              (select_user_channels (store w') (Id u))).
  split; [reflexivity|]. split; [exact (UserChannels_ok u w' Hp')|].
  change (store w') with d'. unfold select_user_channels. split; [|split].
  - intros label Hl Hne. rewrite count_slug_rows.
    apply one_row_per_key; [exact Hu'|].
    apply Hin. apply filter_In. split; [exact Hl|].
    unfold nonempty. apply String.eqb_neq in Hne. rewrite Hne. reflexivity.
  - rewrite map_map. cbn [Slug].
    apply slugs_of_user_NoDup. exact Hu'.
  - intros c Hc. apply in_map_iff in Hc. destruct Hc as [r [<- Hr]].
    apply filter_In in Hr. destruct Hr as [Hr Huid]. apply Z.eqb_eq in Huid.
    cbn [Slug].
    assert (Hk : In (Id u, cr_slug r) (map channel_key (channel d'))).
    { apply in_map_iff. exists r. split; [|exact Hr].
      unfold channel_key. rewrite Huid. reflexivity. }
    destruct (Hnew _ Hk) as [Hold|[label [Hl Heq]]]; [left; exact Hold|].
    right. exists label. apply filter_In in Hl. destruct Hl as [Hl Hne].
    split; [exact Hl|]. split.
    + intros ->. discriminate.
    + inversion Heq. reflexivity.
Qed.

(** ** The uniqueness constraints are invariants *)

Lemma run_stmts_preserves (P : DB -> Prop) (stmts : list (DB -> option (DB * Z))) :
  (forall ins, In ins stmts -> forall d d' id, P d -> ins d = Some (d', id) -> P d') ->
  forall (faults : list bool) (d d' : DB),
    P d -> fst (run_stmts stmts faults (Some d)) = Some d' -> P d'.
Proof.
  induction stmts as [|ins rest IH]; intros Hins faults d d' Hd Hrun.
  - cbn in Hrun. inversion Hrun; subst. exact Hd.
  - cbn [run_stmts] in Hrun.
    assert (Hrest : forall ins0, In ins0 rest ->
                    forall d0 d0' id, P d0 -> ins0 d0 = Some (d0', id) -> P d0').
    { intros ins0 H0. apply Hins. right. exact H0. }
    unfold exec1 in Hrun. destruct (fst (pop faults)).
    + exact (IH Hrest _ _ _ Hd Hrun).
    + destruct (ins d) as [[d1 id]|] eqn:E.
      * apply (IH Hrest _ _ _ (Hins ins (or_introl eq_refl) d d1 id Hd E) Hrun).
      * exact (IH Hrest _ _ _ Hd Hrun).
Qed.

Lemma commits_preserves (P : DB -> Prop) (w w' : World)
      (stmts : list (DB -> option (DB * Z))) :
  (forall ins, In ins stmts -> forall d d' id, P d -> ins d = Some (d', id) -> P d') ->
  commits w w' stmts -> P (store w) -> P (store w').
Proof.
  intros Hins [_ [_ Hs]] Hp.
  exact (run_stmts_preserves P stmts Hins _ _ _ Hp (eq_sym Hs)).
Qed.

Lemma insert_user_schema (username password : string) (d d' : DB) (id : Z) :
  schema_ok d -> insert_user username password d = Some (d', id) -> schema_ok d'.
Proof.
  unfold insert_user. destruct (select_user_by_username d username); [discriminate|].
  intros H E. inversion E; subst. exact H.
Qed.

Lemma insert_channel_schema (user_id : Z) (slug label : string) (d d' : DB) (id : Z) :
  schema_ok d -> insert_channel user_id slug label d = Some (d', id) -> schema_ok d'.
Proof.
  intros [Hc Hp] E.
  destruct (insert_channel_unique user_id slug label d Hc) as [d1 [H1 [Hu _]]].
  unfold exec1 in H1. rewrite E in H1. cbn in H1. inversion H1; subst d1.
  split; [exact Hu|].
  unfold insert_channel in E. destruct (select_channel d user_id slug); [discriminate|].
  inversion E; subst. exact Hp.
Qed.

Lemma insert_post_schema (user_id : Z) (uuid body : string) (posted : Z)
      (d d' : DB) (id : Z) :
  schema_ok d -> insert_post user_id uuid body posted d = Some (d', id) -> schema_ok d'.
Proof.
  intros [Hc Hp] E. unfold insert_post in E.
  destruct (find _ (post d)); [discriminate|]. inversion E; subst.
  split; [exact Hc|].
  unfold post_ids_unique. cbn [post]. rewrite map_app. cbn [map pr_id].
  apply NoDup_app; [exact Hp|constructor; [intros []|constructor]|].
  intros x Hx [<-|[]].
  pose proof (next_id_fresh _ _ Hx). lia.
Qed.

Lemma insert_postchannel_schema (post_id channel_id : Z) (d d' : DB) (id : Z) :
  schema_ok d -> insert_postchannel post_id channel_id d = Some (d', id) -> schema_ok d'.
Proof.
  unfold insert_postchannel. intros H E. inversion E; subst. exact H.
Qed.

(** The constraints of the schema hold again after each of the three
    writing operations has committed. *)
Lemma schema_ok_committed (ToLower SetPassword : string -> string) (w : World) :
  storage_ok w ->
  schema_ok (store w) ->
  (forall username password,
      schema_ok (store (snd (CreateUser SetPassword username password w)))) /\
  (forall u names,
      schema_ok (store (snd (AddChannels ToLower u names w)))) /\
  (forall u body chans u4 rest id t1,
      entropy w = u4 :: rest ->
      exec1 (insert_post (Id u) u4 body (now w)) (fst (pop (exec_faults w)))
            (Some (store w)) = (inl id, t1) ->
      schema_ok (store (snd (AddPost u body (map Some chans) w)))).
Proof.
  intros Hok Hs. split; [|split].
  - intros username password.
    pose proof (CreateUser_eq SetPassword username password w Hok) as H.
    cbv zeta in H. rewrite H. cbn [snd].
    eapply commits_preserves; [|apply commits_committed|exact Hs].
    intros ins [<-|[]] d d' id. apply insert_user_schema.
  - intros u names. rewrite (AddChannels_eq ToLower u names w Hok). cbn [snd].
    eapply commits_preserves; [|apply commits_committed|exact Hs].
    intros ins Hin. unfold channel_stmts in Hin. apply in_map_iff in Hin.
    destruct Hin as [label [<- _]]. intros d d' id. apply insert_channel_schema.
  - intros u body chans u4 rest id t1 He Hx.
    destruct (AddPost_eq u body u4 rest chans id t1 w Hok He Hx)
      as [w' [Hrun [Hc [_ Hg]]]].
    rewrite Hrun, Hg. cbn [snd].
    eapply commits_preserves; [|exact Hc|exact Hs].
    intros ins [<-|Hin] d d' id'; [apply insert_post_schema|].
    apply in_map_iff in Hin. destruct Hin as [c [<- _]].
    apply insert_postchannel_schema.
Qed.

(** X1: when the token is generated and the post-row insert fails,
    [AddPost] returns a nil post and the error of the insert, for any
    list of channels; its transaction is begun and is neither committed
    nor rolled back, and the committed contents are unchanged. *)
Theorem AddPost_insert_fails (u : User) (body u4 : string) (rest : list string)
      (channels : list (option Channel)) (e : error) (t1 : option DB) (w : World) :
  storage_ok w ->
  entropy w = u4 :: rest ->
  exec1 (insert_post (Id u) u4 body (now w)) (fst (pop (exec_faults w)))
        (Some (store w)) = (inr e, t1) ->
  exists w' : World,
    AddPost u body channels w = (Ret (None, Some e), w') /\
    txlog w' = txlog w ++ [TxBegin] /\
    store w' = store w /\
    tx w' = t1.
Proof.
  intros [Hb Hp] He Hx. eexists. split.
  - unfold AddPost.
    rewrite (bind_Ret _ _ _ _ _ (Begin_ok w Hb)).
    unfold bind at 1. unfold NewV4. cbn [entropy begun]. rewrite He.
    set (w2 := mkWorld _ _ _ _ _ rest _ _).
    assert (Hp2 : prepare_faults w2 = []) by exact Hp.
    rewrite (bind_Ret _ _ _ _ _ (Prepare_ok _ Hp2)).
    unfold bind at 1. unfold time_Now_Unix.
    unfold bind at 1. rewrite Exec_eq.
    change (now w2) with (now w). change (exec_faults w2) with (exec_faults w).
    change (tx w2) with (Some (store w)).
    rewrite Hx. cbn [fst snd]. reflexivity.
  - cbn. repeat split.
Qed.

(** ** The other lookups *)

(** X2: on a working storage handle [GetChannelById] returns the channel
    with its owner when the channel row and the row of its owner both
    exist, and a nil channel with the error of the lookup that failed
    otherwise; the world is unchanged. *)
Theorem GetChannelById_propagates (id : Z) (w : World) :
  storage_ok w ->
  GetChannelById id w =
  (Ret (match select_channel_by_id (store w) id with
        | None => (None, Some ErrNoRows)
        | Some r =>
            match select_user_by_id (store w) (cr_user_id r) with
            | None => (None, Some ErrNoRows)
            | Some ur =>
                (Some (mkChannel id
                         (Some (mkUser (cr_user_id r) (ur_username ur)
                                       (bytes (ur_password ur))))
                         (cr_slug r) (cr_label r)), None)
            end
        end), w).
Proof.
  intros [_ Hp]. unfold GetChannelById.
  rewrite (bind_Ret _ _ _ _ _ (Prepare_ok w Hp)).
  unfold bind at 1. unfold QueryRow.
  destruct (select_channel_by_id (store w) id) as [r|]; [|reflexivity].
  unfold bind. rewrite (GetUserById_ok _ _ Hp).
  destruct (select_user_by_id (store w) (cr_user_id r)); reflexivity.
Qed.

(** X3: on a working storage handle [GetAllUserPosts] returns, with a
    nil error, one post per fetched row, in order, each carrying the
    user pointer it was given: no row is skipped and no owner is looked
    up. *)
Theorem GetAllUserPosts_one_post_per_row (u : User) (limit offset : Z) (w : World) :
  storage_ok w ->
  GetAllUserPosts (Some u) limit offset w =
  (Ret (map (fun r => Some (mkPost (pr_id r) (pr_uuid r) (Some u)
                                   (pr_body r) (pr_posted r)))
            (select_user_posts (store w) (Id u) limit offset), None), w).
Proof.
  intros [_ Hp]. unfold GetAllUserPosts.
  rewrite (bind_Ret _ _ _ _ _ (Prepare_ok w Hp)).
  unfold bind, Query, ret.
  rewrite (fold_left_snoc
             (fun r => Some (mkPost (pr_id r) (pr_uuid r) (Some u)
                                    (pr_body r) (pr_posted r)))).
  reflexivity.
Qed.

(** ** Lower case and replacement on ASCII labels *)

Lemma ascii_lower_space (c : ascii) :
  Ascii.eqb (ascii_lower c) " " = Ascii.eqb c " ".
Proof.
  destruct c as [[] [] [] [] [] [] [] []]; reflexivity.
Qed.

(** On the ASCII model of [ToLower] the two orders agree: replacing the
    spaces and then lowering, as the code does, or lowering and then
    replacing the spaces. *)
Lemma ascii_slug_commutes (label : string) :
  slug_of ascii_ToLower label = Replace (ascii_ToLower label) " " "_".
Proof.
  unfold slug_of. induction label as [|c rest IH]; [reflexivity|].
  cbn [Replace ascii_ToLower]. rewrite ascii_lower_space.
  destruct (Ascii.eqb c " ").
  - cbn [append ascii_ToLower]. rewrite IH. reflexivity.
  - cbn [ascii_ToLower]. rewrite IH. reflexivity.
Qed.

(** ** The operations on sample data *)

(** The scenario of the spec: the slugs of "Tech News" and "Diary". *)
Example slug_of_scenario :
  slug_of ascii_ToLower "Tech News" = "tech_news" /\
  slug_of ascii_ToLower "Diary" = "diary".
Proof. split; reflexivity. Qed.

(** Two channels are created for alice; both are reported as nil, since
    neither was readable through [p.Database] before the commit. *)
Example AddChannels_scenario :
  fst (AddChannels ascii_ToLower alice ["Tech News"; "Diary"] w_alice)
  = Ret ([None; None], None) /\
  channel (store (snd (AddChannels ascii_ToLower alice ["Tech News"; "Diary"] w_alice)))
  = [mkChannelRow 1 1 "tech_news" "Tech News"; mkChannelRow 2 1 "diary" "Diary"].
Proof. split; reflexivity. Qed.

(** A channel that exists already is looked up successfully and is not
    reported, although its insert failed; the new one is reported. *)
Example AddChannels_existing_channel :
  fst (AddChannels ascii_ToLower alice ["Tech News"; "Diary"]
                   (world_of db_channel [] []))
  = Ret ([None], None).
Proof. reflexivity. Qed.

(** Registering "alice" again: the insert violates the uniqueness of
    the username, and [CreateUser] returns the stored user with a nil
    error. *)
Example CreateUser_duplicate :
  fst (CreateUser sample_hash "alice" "another" w_alice)
  = Ret (Some alice, None).
Proof. reflexivity. Qed.

(** The driver fails the insert of a new user: nil user, nil error. *)
Example CreateUser_failed_insert :
  fst (CreateUser sample_hash "bob" "pw2" (world_of db_alice [true] []))
  = Ret (None, None).
Proof. reflexivity. Qed.

(** The feed leaves the post of the unknown user out. *)
Example GetAllPosts_feed :
  fst (GetAllPosts 10 0 (world_of db_feed [] []))
  = Ret ([Some (mkPost 3 "token-c" (Some alice) "third" 300);
          Some (mkPost 1 "token-a" (Some alice) "first" 100)], None).
Proof. reflexivity. Qed.

(** A post in "tech_news" and "diary", the driver failing the first
    join row: the post and the second join row are committed. *)
Example AddPost_failed_join_row :
  fst (AddPost alice "hello world" [Some tech_news; Some diary]
               (world_of db_alice [false; true; false] ["token-1"]))
  = Ret (Some (mkPost 1 "token-1" (Some alice) "hello world" 1700000000), None) /\
  postchannel (store (snd (AddPost alice "hello world" [Some tech_news; Some diary]
                                   (world_of db_alice [false; true; false] ["token-1"]))))
  = [(1, 2)].
Proof. split; reflexivity. Qed.

Example scenario_channels :
  fst (UserChannels alice scenario)
  = Ret [Some (mkChannel 1 None "tech_news" "Tech News");
         Some (mkChannel 2 None "diary" "Diary")].
Proof. reflexivity. Qed.

Example scenario_user_posts :
  fst (GetAllUserPosts (Some alice) 10 0 scenario)
  = Ret ([Some (mkPost 1 "token-1" (Some alice) "hello world" 1700000000)], None).
Proof. reflexivity. Qed.

(** ** Instances of the theorems *)

Lemma AddChannels_reports_only_failed_lookups_witness :
  storage_ok w_alice /\
  exists w',
    AddChannels ascii_ToLower alice ["Tech News"; "Diary"] w_alice =
    (Ret (reported ascii_ToLower alice ["Tech News"; "Diary"] w_alice, None), w').
Proof.
  split; [split; reflexivity|].
  apply (AddChannels_reports_only_failed_lookups
           ascii_ToLower alice ["Tech News"; "Diary"] w_alice).
  split; reflexivity.
Defined.

Lemma AddPost_commits_and_rereads_witness :
  exists (w' : World) (id : Z),
    AddPost alice "hello world" (map Some [tech_news; diary])
            (world_of db_alice [false; true; false] ["token-1"])
    = GetPost id w' /\
    id = 1 /\
    postchannel (store w') = [(1, 2)].
Proof.
  destruct (AddPost_commits_and_rereads
              alice "hello world" "token-1" [] [tech_news; diary]
              (world_of db_alice [false; true; false] ["token-1"]))
    as [w' [id [H1 [H2 [_ [_ [_ [_ [_ [H8 _]]]]]]]]]].
  - split; reflexivity.
  - reflexivity.
  - intros r [].
  - reflexivity.
  - exists w', id. split; [exact H1|]. split; [exact H2|].
    rewrite H8, H2. reflexivity.
Defined.

Lemma transactions_commit_despite_statement_errors_witness :
  storage_ok (world_of db_alice [true] ["token-1"]) /\
  returns_committing (CreateUser sample_hash "alice" "pw1")
    (world_of db_alice [true] ["token-1"])
    [insert_user "alice" (sample_hash "pw1")] /\
  returns_committing (AddChannels ascii_ToLower alice ["Tech News"])
    (world_of db_alice [true] ["token-1"])
    (channel_stmts ascii_ToLower alice ["Tech News"]).
Proof.
  pose proof (transactions_commit_despite_statement_errors
                ascii_ToLower sample_hash (world_of db_alice [true] ["token-1"])
                (conj eq_refl eq_refl)) as [H1 [H2 _]].
  split; [split; reflexivity|].
  split; [apply H1|apply H2].
Defined.

Lemma AddChannels_then_UserChannels_witness :
  storage_ok w_alice /\ no_exec_fault w_alice /\ channel_unique (store w_alice) /\
  exists (created : list (option Channel)) (w' : World) (listing : list Channel),
    AddChannels ascii_ToLower alice ["Tech News"; "Diary"; "tech news"] w_alice
    = (Ret (created, None), w') /\
    UserChannels alice w' = (Ret (map Some listing), w') /\
    (forall label, In label ["Tech News"; "Diary"; "tech news"] -> label <> "" ->
                   count_slug (slug_of ascii_ToLower label) listing = 1%nat) /\
    NoDup (map Slug listing) /\
    (forall c, In c listing ->
               In (Id alice, Slug c) (map channel_key (channel (store w_alice))) \/
               exists label, In label ["Tech News"; "Diary"; "tech news"] /\
                             label <> "" /\ Slug c = slug_of ascii_ToLower label).
Proof.
  assert (H1 : storage_ok w_alice) by (split; reflexivity).
  assert (H2 : no_exec_fault w_alice) by constructor.
  assert (H3 : channel_unique (store w_alice)) by constructor.
  split; [exact H1|]. split; [exact H2|]. split; [exact H3|].
  exact (AddChannels_then_UserChannels
           ascii_ToLower alice ["Tech News"; "Diary"; "tech news"] w_alice H1 H2 H3).
Defined.

Lemma GetUser_missing_flag_GetUserById_missing_error_witness :
  GetUser "bob" w_alice = (Ret (None, false), w_alice) /\
  GetUserById 2 w_alice = (Ret (None, Some ErrNoRows), w_alice).
Proof.
  apply (GetUser_missing_flag_GetUserById_missing_error "bob" 2 w_alice).
  - split; reflexivity.
  - intros r [<-|[]]. discriminate.
  - intros r [<-|[]]. discriminate.
Defined.

Lemma GetAllPosts_skips_unresolved_users_witness :
  GetAllPosts 10 0 (world_of db_feed [] []) =
  (Ret (resolved (world_of db_feed [] [])
                 (select_all_posts db_feed 10 0), None),
   world_of db_feed [] []).
Proof.
  apply (GetAllPosts_skips_unresolved_users 10 0 (world_of db_feed [] [])).
  split; reflexivity.
Defined.

Lemma post_ids_unique_db_feed : post_ids_unique db_feed.
Proof.
  unfold post_ids_unique. cbn.
  repeat constructor; cbn; intuition discriminate.
Defined.

Lemma GetAllPosts_pages_witness :
  exists page1 page2 : list Post,
    GetAllPosts 1 0 (world_of db_feed [] []) =
      (Ret (map Some page1, None), world_of db_feed [] []) /\
    GetAllPosts 1 1 (world_of db_feed [] []) =
      (Ret (map Some page2, None), world_of db_feed [] []) /\
    (List.length page1 <= Z.to_nat 1)%nat /\
    StronglySorted newer_first page1 /\
    (forall p q, In p page1 -> In q page2 -> pId p <> pId q) /\
    GetAllPosts (2 * 1) 0 (world_of db_feed [] []) =
      (Ret (map Some (page1 ++ page2), None), world_of db_feed [] []).
Proof.
  apply (GetAllPosts_pages 1 (world_of db_feed [] [])).
  - discriminate.
  - split; reflexivity.
  - exact post_ids_unique_db_feed.
Defined.

Lemma CreateUser_error_always_nil_witness :
  exists (w' : World) (u : option User) (found : bool),
    CreateUser sample_hash "alice" "another" w_alice = (Ret (u, None), w') /\
    commits w_alice w' [insert_user "alice" (sample_hash "another")] /\
    GetUser "alice" w' = (Ret (u, found), w') /\
    (forall r, select_user_by_username (store w_alice) "alice" = Some r ->
               u = Some (mkUser (ur_id r) "alice" (bytes (ur_password r)))) /\
    (select_user_by_username (store w_alice) "alice" = None ->
     fst (pop (exec_faults w_alice)) = true -> u = None).
Proof.
  apply (CreateUser_error_always_nil sample_hash "alice" "another" w_alice).
  split; reflexivity.
Defined.

Lemma AddChannels_created_all_nil_witness :
  Forall (fun c => c = None) [@None Channel; None] /\
  (forall slug w0 w1 c e,
      GetChannel alice slug w0 = (Ret (c, e), w1) -> (c = None <-> e <> None)).
Proof.
  apply (AddChannels_created_all_nil
           ascii_ToLower alice ["Tech News"; "Diary"] w_alice
           (snd (AddChannels ascii_ToLower alice ["Tech News"; "Diary"] w_alice))
           [None; None] None).
  reflexivity.
Defined.

Lemma AddPost_insert_fails_witness :
  exists w' : World,
    AddPost alice "hello world" [Some tech_news; None]
            (world_of db_alice [true] ["token-1"])
    = (Ret (None, Some ErrDriver), w') /\
    txlog w' = txlog (world_of db_alice [true] ["token-1"]) ++ [TxBegin] /\
    store w' = store (world_of db_alice [true] ["token-1"]) /\
    tx w' = Some db_alice.
Proof.
  apply (AddPost_insert_fails alice "hello world" "token-1" []
           [Some tech_news; None] ErrDriver (Some db_alice)
           (world_of db_alice [true] ["token-1"])).
  - split; reflexivity.
  - reflexivity.
  - reflexivity.
Defined.

Lemma GetChannelById_propagates_witness :
  GetChannelById 1 (world_of db_channel [] []) =
  (Ret (Some tech_news, None), world_of db_channel [] []).
Proof.
  apply (GetChannelById_propagates 1 (world_of db_channel [] [])).
  split; reflexivity.
Defined.

Lemma GetAllUserPosts_one_post_per_row_witness :
  GetAllUserPosts (Some alice) 10 0 (world_of db_feed [] []) =
  (Ret ([Some (mkPost 3 "token-c" (Some alice) "third" 300);
         Some (mkPost 1 "token-a" (Some alice) "first" 100)], None),
   world_of db_feed [] []).
Proof.
  apply (GetAllUserPosts_one_post_per_row alice 10 0 (world_of db_feed [] [])).
  split; reflexivity.
Defined.

(** ** The lookups write nothing *)

Lemma same_data_refl (w : World) : same_data w w.
Proof. repeat split. Qed.

Lemma same_data_trans (w1 w2 w3 : World) :
  same_data w1 w2 -> same_data w2 w3 -> same_data w1 w3.
Proof.
  unfold same_data.
  intros [A1 [A2 [A3 [A4 [A5 [A6 A7]]]]]] [B1 [B2 [B3 [B4 [B5 [B6 B7]]]]]].
  repeat split; congruence.
Qed.

Lemma read_only_ret {A : Type} (a : A) : read_only (ret a).
Proof. intros w. apply same_data_refl. Qed.

Lemma read_only_log_Fatal {A : Type} : read_only (@log_Fatal A).
Proof. intros w. apply same_data_refl. Qed.

Lemma read_only_panic {A : Type} : read_only (@panic A).
Proof. intros w. apply same_data_refl. Qed.

Lemma read_only_bind {A B : Type} (m : M A) (k : A -> M B) :
  read_only m -> (forall a, read_only (k a)) -> read_only (bind m k).
Proof.
  intros Hm Hk w. unfold bind. specialize (Hm w).
  destruct (m w) as [[a| |] w1]; cbn [snd] in *; try exact Hm.
  eapply same_data_trans; [exact Hm|apply Hk].
Qed.

Lemma read_only_Prepare : read_only Prepare.
Proof.
  intros w. unfold Prepare. destruct (pop (prepare_faults w)); repeat split.
Qed.

Lemma read_only_QueryRow {R : Type} (q : DB -> option R) : read_only (QueryRow q).
Proof.
  intros w. unfold QueryRow. destruct (q (store w)); apply same_data_refl.
Qed.

Lemma read_only_Query {R : Type} (q : DB -> list R) : read_only (Query q).
Proof. intros w. apply same_data_refl. Qed.

Ltac read_only_step :=
  first [ apply read_only_ret | apply read_only_log_Fatal | apply read_only_panic
        | apply read_only_Prepare | apply read_only_QueryRow | apply read_only_Query
        | apply read_only_bind; [|intros ?]
        | match goal with
          | |- read_only (match ?x with _ => _ end) => destruct x
          end ].

Lemma read_only_GetUser (username : string) : read_only (GetUser username).
Proof. unfold GetUser. repeat read_only_step. Qed.

Lemma read_only_GetUserById (id : Z) : read_only (GetUserById id).
Proof. unfold GetUserById. repeat read_only_step. Qed.

Lemma read_only_GetChannel (u : User) (slug : string) : read_only (GetChannel u slug).
Proof. unfold GetChannel. repeat read_only_step. Qed.

Lemma read_only_GetAllPosts_rows (rows : list PostRow) :
  forall posts, read_only (GetAllPosts_rows rows posts).
Proof.
  induction rows as [|r rest IH]; intros posts; cbn [GetAllPosts_rows].
  - apply read_only_ret.
  - apply read_only_bind; [apply read_only_GetUserById|].
    intros [u [e|]]; apply IH.
Qed.

(** X4: in every world, also when [Prepare] fails, the eight lookups
    leave the committed contents, the open transaction, the record of
    life-cycle calls, the pending [Exec] and [Begin] failures, the
    random source and the clock as they were: they write nothing and
    they begin, commit or roll back no transaction. *)
Theorem lookups_are_read_only :
  (forall username, read_only (GetUser username)) /\
  (forall id, read_only (GetUserById id)) /\
  (forall u, read_only (UserChannels u)) /\
  (forall u slug, read_only (GetChannel u slug)) /\
  (forall id, read_only (GetChannelById id)) /\
  (forall id, read_only (GetPost id)) /\
  (forall limit offset, read_only (GetAllPosts limit offset)) /\
  (forall u limit offset, read_only (GetAllUserPosts u limit offset)).
Proof.
  split; [exact read_only_GetUser|].
  split; [exact read_only_GetUserById|].
  split; [intros u; unfold UserChannels; repeat read_only_step|].
  split; [exact read_only_GetChannel|].
  split; [|split; [|split]].
  - intros id. unfold GetChannelById.
    apply read_only_bind; [apply read_only_Prepare|].
    intros [e|]; [apply read_only_log_Fatal|].
    apply read_only_bind; [apply read_only_QueryRow|].
    intros [r|e]; [|apply read_only_ret].
    apply read_only_bind; [apply read_only_GetUserById|].
    intros [u [e|]]; apply read_only_ret.
  - intros id. unfold GetPost.
    apply read_only_bind; [apply read_only_Prepare|].
    intros [e|]; [apply read_only_log_Fatal|].
    apply read_only_bind; [apply read_only_QueryRow|].
    intros [r|e]; [|apply read_only_ret].
    apply read_only_bind; [apply read_only_GetUserById|].
    intros [u [e|]]; apply read_only_ret.
  - intros limit offset. unfold GetAllPosts.
    apply read_only_bind; [apply read_only_Prepare|].
    intros [e|]; [apply read_only_log_Fatal|].
    apply read_only_bind; [apply read_only_Query|]. intros rows.
    apply read_only_bind; [apply read_only_GetAllPosts_rows|]. intros posts.
    apply read_only_ret.
  - intros u limit offset. unfold GetAllUserPosts.
    apply read_only_bind; [apply read_only_Prepare|].
    intros [e|]; [apply read_only_log_Fatal|].
    destruct u as [usr|]; [|apply read_only_panic].
    apply read_only_bind; [apply read_only_Query|]. intros rows. apply read_only_ret.
Qed.

(** ** CreateUser and the lookups of users *)

Section CreateUserLookups.

Variable SetPassword : string -> string.

(** The committed contents after [CreateUser]: the user table with or
    without the new row, and the other tables as they were. *)
Lemma CreateUser_store (username password : string) (w : World) :
  storage_ok w ->
  exists w' : World,
    CreateUser SetPassword username password w =
    (Ret (match select_user_by_username (store w') username with
          | Some r => Some (mkUser (ur_id r) username (bytes (ur_password r)))
          | None => None
          end, None), w') /\
    prepare_faults w' = [] /\
    channel (store w') = channel (store w) /\
    post (store w') = post (store w) /\
    postchannel (store w') = postchannel (store w) /\
    users (store w') =
    match fst (pop (exec_faults w)), select_user_by_username (store w) username with
    | false, None =>
        users (store w) ++ [mkUserRow (next_id (map ur_id (users (store w))))
                                      username (SetPassword password)]
    | _, _ => users (store w)
    end.
Proof.
  intros Hok. pose proof (CreateUser_eq SetPassword username password w Hok) as H.
  cbv zeta in H. eexists. split; [exact H|]. split; [exact (proj2 Hok)|].
  cbn [run_stmts fst snd committed store]. unfold exec1, insert_user.
  destruct (fst (pop (exec_faults w))); cbn [snd]; [repeat split|].
  destruct (select_user_by_username (store w) username) eqn:E; cbn [snd];
    repeat split.
Qed.

(** X5: on a working storage handle, when the username is free and the
    driver does not fail the insert, [CreateUser] returns, with a nil
    error, a user with that username and with the credential that
    [SetPassword] gave; and afterwards [GetUser] by the username and
    [GetUserById] by the identifier of the returned user both find
    exactly this user. *)
Theorem CreateUser_then_lookups (username password : string) (w : World) :
  storage_ok w ->
  select_user_by_username (store w) username = None ->
  fst (pop (exec_faults w)) = false ->
  exists (w' : World) (u : User),
    CreateUser SetPassword username password w = (Ret (Some u, None), w') /\
    Username u = username /\
    Password u = bytes (SetPassword password) /\
    GetUser username w' = (Ret (Some u, true), w') /\
    GetUserById (Id u) w' = (Ret (Some u, None), w').
Proof.
  intros Hok Hfree Hf.
  destruct (CreateUser_store username password w Hok)
    as [w' [Hrun [Hp' [_ [_ [_ Husers]]]]]].
  set (id := next_id (map ur_id (users (store w)))) in *.
  set (row := mkUserRow id username (SetPassword password)) in *.
  assert (Hu : users (store w') = users (store w) ++ [row]).
  { rewrite Husers, Hf, Hfree. reflexivity. }
  assert (Hname : select_user_by_username (store w') username = Some row).
  { unfold select_user_by_username. rewrite Hu. apply find_app_last.
    - apply find_none_iff. exact Hfree.
    - apply String.eqb_refl. }
  assert (Hid : select_user_by_id (store w') id = Some row).
  { unfold select_user_by_id. rewrite Hu. apply find_app_last.
    - intros y Hy. apply Z.eqb_neq.
      pose proof (next_id_fresh _ _ (in_map ur_id _ _ Hy)) as Hlt. fold id in Hlt. lia.
    - apply Z.eqb_refl. }
  exists w', (mkUser id username (bytes (SetPassword password))).
  rewrite Hname in Hrun. split; [exact Hrun|].
  split; [reflexivity|]. split; [reflexivity|]. split.
  - rewrite (GetUser_ok username w' Hp'), Hname. reflexivity.
  - rewrite (GetUserById_ok _ w' Hp'). cbn [Id]. rewrite Hid. reflexivity.
Qed.

(** X6: on a working storage handle and whatever the outcome of the
    insert, [CreateUser] changes no stored user and no other table: a
    username that was found before the call is found afterwards with
    the same identifier and the same credential (the username of the
    call included, when it was taken), and the channel, post and join
    tables are as they were. *)
Theorem CreateUser_keeps_stored_users (username password : string) (w : World) :
  storage_ok w ->
  exists (u : option User) (w' : World),
    CreateUser SetPassword username password w = (Ret (u, None), w') /\
    (forall name r,
        select_user_by_username (store w) name = Some r ->
        GetUser name w' = (Ret (Some (mkUser (ur_id r) name (bytes (ur_password r))), true), w')) /\
    channel (store w') = channel (store w) /\
    post (store w') = post (store w) /\
    postchannel (store w') = postchannel (store w).
Proof.
  intros Hok.
  destruct (CreateUser_store username password w Hok)
    as [w' [Hrun [Hp' [Hc [Hpo [Hpc Husers]]]]]].
  eexists. exists w'. split; [exact Hrun|].
  split; [|repeat split; assumption].
  intros name r Hr. rewrite (GetUser_ok name w' Hp').
  replace (select_user_by_username (store w') name) with (Some r); [reflexivity|].
  symmetry. unfold select_user_by_username at 1. rewrite Husers.
  destruct (fst (pop (exec_faults w))); [exact Hr|].
  destruct (select_user_by_username (store w) username); [exact Hr|].
  apply find_app_first. exact Hr.
Qed.

End CreateUserLookups.

(** ** AddChannels and the lookups of channels *)

Lemma select_channel_app (d d' : DB) (extra : list ChannelRow)
      (user_id : Z) (slug : string) (r : ChannelRow) :
  channel d' = channel d ++ extra ->
  select_channel d user_id slug = Some r ->
  select_channel d' user_id slug = Some r.
Proof.
  unfold select_channel. intros -> H. apply find_app_first. exact H.
Qed.

Lemma pop_no_fault_tail (faults : list bool) :
  Forall (fun b => b = false) faults ->
  Forall (fun b => b = false) (snd (pop faults)).
Proof. intros H. exact (proj2 (pop_no_fault faults H)). Qed.

Lemma run_stmts_no_fault (stmts : list (DB -> option (DB * Z))) :
  forall (faults : list bool) (t : option DB),
    Forall (fun b => b = false) faults ->
    Forall (fun b => b = false) (snd (run_stmts stmts faults t)).
Proof.
  induction stmts as [|ins rest IH]; intros faults t H; [exact H|].
  cbn [run_stmts]. apply IH. apply pop_no_fault_tail. exact H.
Qed.

Section ChannelLookups.

Variable ToLower : string -> string.

(** What the inserts of [AddChannels] do to the tables, whatever the
    driver does: rows are appended to [channel], each one for the user
    and with the slug and the label of one of the labels; when the
    driver fails none of them, every label has its row afterwards. *)
Lemma run_channel_inserts_frame (user_id : Z) (labels : list string) :
  forall (faults : list bool) (d : DB),
  exists (d' : DB) (extra : list ChannelRow),
    fst (run_stmts
           (map (fun label => insert_channel user_id (slug_of ToLower label) label) labels)
           faults (Some d)) = Some d' /\
    users d' = users d /\ post d' = post d /\ postchannel d' = postchannel d /\
    channel d' = channel d ++ extra /\
    Forall (fun r => cr_user_id r = user_id /\
                     exists label, In label labels /\
                                   cr_slug r = slug_of ToLower label /\
                                   cr_label r = label) extra /\
    (Forall (fun b => b = false) faults ->
     forall label, In label labels ->
                   exists r, select_channel d' user_id (slug_of ToLower label) = Some r).
Proof.
  induction labels as [|label rest IH]; intros faults d.
  - exists d, []. cbn. rewrite app_nil_r. repeat split; [constructor|].
    intros _ label [].
  - cbn [map run_stmts].
    set (ins := insert_channel user_id (slug_of ToLower label) label).
    assert (H1 : exists (d1 : DB) (e1 : list ChannelRow),
               snd (exec1 ins (fst (pop faults)) (Some d)) = Some d1 /\
               users d1 = users d /\ post d1 = post d /\ postchannel d1 = postchannel d /\
               channel d1 = channel d ++ e1 /\
               Forall (fun r => cr_user_id r = user_id /\
                                cr_slug r = slug_of ToLower label /\
                                cr_label r = label) e1 /\
               (fst (pop faults) = false ->
                exists r, select_channel d1 user_id (slug_of ToLower label) = Some r)).
    { unfold exec1, ins, insert_channel. destruct (fst (pop faults)).
      - exists d, []. cbn [snd]. rewrite app_nil_r.
        repeat split; [constructor|discriminate].
      - destruct (select_channel d user_id (slug_of ToLower label)) as [r|] eqn:E.
        + exists d, []. cbn [snd]. rewrite app_nil_r.
          repeat split; [constructor|]. intros _. exists r. exact E.
        + eexists. eexists. cbn [snd]. split; [reflexivity|]. cbn.
          repeat split; [repeat constructor|].
          intros _. eexists. unfold select_channel. cbn [channel].
          apply find_app_last.
          * apply find_none_iff. exact E.
          * cbn. rewrite Z.eqb_refl, String.eqb_refl. reflexivity. }
    destruct H1 as [d1 [e1 [-> [Hu1 [Hp1 [Hpc1 [Hc1 [Hf1 Hs1]]]]]]]].
    destruct (IH (snd (pop faults)) d1)
      as [d' [extra [Hrun [Hu [Hp [Hpc [Hc [Hf Hs]]]]]]]].
    exists d', (e1 ++ extra).
    split; [exact Hrun|].
    split; [congruence|]. split; [congruence|]. split; [congruence|].
    split; [rewrite Hc, Hc1, app_assoc; reflexivity|]. split.
    + apply Forall_app. split.
      * eapply Forall_impl; [|exact Hf1]. cbv beta.
        intros r [Ha [Hb Hc']]. split; [exact Ha|].
        exists label. repeat split; [left; reflexivity|exact Hb|exact Hc'].
      * eapply Forall_impl; [|exact Hf]. cbv beta.
        intros r [Ha [l [Hl [Hb Hc']]]]. split; [exact Ha|].
        exists l. repeat split; [right; exact Hl|exact Hb|exact Hc'].
    + intros Hno l [<-|Hl].
      * destruct (pop_no_fault faults Hno) as [Hhd _].
        destruct (Hs1 Hhd) as [r Hr]. exists r.
        exact (select_channel_app d1 d' extra _ _ r Hc Hr).
      * apply (Hs (pop_no_fault_tail faults Hno) l Hl).
Qed.

(** The world [AddChannels] leaves, with what the tables have become. *)
Lemma AddChannels_store (u : User) (names : list string) (w : World) :
  storage_ok w ->
  exists (w' : World) (extra : list ChannelRow),
    AddChannels ToLower u names w = (Ret (reported ToLower u names w, None), w') /\
    prepare_faults w' = [] /\ begin_faults w' = [] /\
    exec_faults w' = snd (run_stmts (channel_stmts ToLower u names)
                                    (exec_faults w) (Some (store w))) /\
    users (store w') = users (store w) /\
    post (store w') = post (store w) /\
    postchannel (store w') = postchannel (store w) /\
    channel (store w') = channel (store w) ++ extra /\
    Forall (fun r => cr_user_id r = Id u /\
                     exists label, In label names /\ label <> "" /\
                                   cr_slug r = slug_of ToLower label /\
                                   cr_label r = label) extra /\
    (no_exec_fault w ->
     forall label, In label names -> label <> "" ->
                   exists r, select_channel (store w') (Id u) (slug_of ToLower label) = Some r).
Proof.
  intros Hok. rewrite (AddChannels_eq ToLower u names w Hok).
  unfold channel_stmts.
  destruct (run_channel_inserts_frame (Id u) (filter nonempty names)
                                      (exec_faults w) (store w))
    as [d' [extra [Hrun [Hu [Hp [Hpc [Hc [Hf Hs]]]]]]]].
  eexists. exists extra. split; [reflexivity|].
  rewrite Hrun. cbn [committed store prepare_faults begin_faults exec_faults].
  split; [exact (proj2 Hok)|]. split; [exact (proj1 Hok)|].
  split; [reflexivity|].
  split; [exact Hu|]. split; [exact Hp|]. split; [exact Hpc|]. split; [exact Hc|].
  split.
  - eapply Forall_impl; [|exact Hf]. cbv beta.
    intros r [Ha [l [Hl [Hb Hc']]]]. split; [exact Ha|].
    apply filter_In in Hl. destruct Hl as [Hl Hne].
    exists l. repeat split; [exact Hl| |exact Hb|exact Hc'].
    intros ->. discriminate.
  - intros Hno label Hl Hne. apply (Hs Hno). apply filter_In. split; [exact Hl|].
    unfold nonempty. apply String.eqb_neq in Hne. rewrite Hne. reflexivity.
Qed.

(** X7: on a working storage handle and with no insert failed by the
    driver, every non-empty label given to [AddChannels] has its
    channel afterwards: [GetChannel] for the user and the slug of the
    label returns, with a nil error, a channel with this slug and this
    user. *)
Theorem AddChannels_then_GetChannel (u : User) (names : list string) (w : World) :
  storage_ok w ->
  no_exec_fault w ->
  exists (created : list (option Channel)) (w' : World),
    AddChannels ToLower u names w = (Ret (created, None), w') /\
    forall label, In label names -> label <> "" ->
      exists c : Channel,
        GetChannel u (slug_of ToLower label) w' = (Ret (Some c, None), w') /\
        Slug c = slug_of ToLower label /\ cUser c = Some u.
Proof.
  intros Hok Hno.
  destruct (AddChannels_store u names w Hok)
    as [w' [extra [Hrun [Hp' [_ [_ [_ [_ [_ [_ [_ Hs]]]]]]]]]]].
  eexists. exists w'. split; [exact Hrun|].
  intros label Hl Hne. destruct (Hs Hno label Hl Hne) as [r Hr].
  eexists. rewrite (GetChannel_ok u _ w' Hp'), Hr.
  split; [reflexivity|]. split; reflexivity.
Qed.

(** X8: on a working storage handle and whatever the driver does to the
    inserts, [AddChannels] only appends to the channel table: a channel
    that [GetChannel] found before the call, for any user and slug, is
    found afterwards with the same identifier and label, and the user,
    post and join tables are as they were. *)
Theorem AddChannels_keeps_existing (u : User) (names : list string) (w : World) :
  storage_ok w ->
  exists (created : list (option Channel)) (w' : World),
    AddChannels ToLower u names w = (Ret (created, None), w') /\
    (forall (v : User) (slug : string) (r : ChannelRow),
        select_channel (store w) (Id v) slug = Some r ->
        GetChannel v slug w' =
        (Ret (Some (mkChannel (cr_id r) (Some v) slug (cr_label r)), None), w')) /\
    users (store w') = users (store w) /\
    post (store w') = post (store w) /\
    postchannel (store w') = postchannel (store w).
Proof.
  intros Hok.
  destruct (AddChannels_store u names w Hok)
    as [w' [extra [Hrun [Hp' [_ [_ [Hu [Hp [Hpc [Hc _]]]]]]]]]].
  eexists. exists w'. split; [exact Hrun|].
  split; [|repeat split; assumption].
  intros v slug r Hr. rewrite (GetChannel_ok v slug w' Hp').
  rewrite (select_channel_app (store w) (store w') extra _ _ r Hc Hr).
  reflexivity.
Qed.

Lemma reported_absent (u : User) (names : list string) (w : World) :
  prepare_faults w = [] ->
  reported ToLower u names w =
  map (fun _ => None)
      (filter (fun label => andb (nonempty label)
                                 (absent (store w) (Id u) (slug_of ToLower label)))
              names).
Proof.
  intros Hp. unfold reported.
  induction names as [|label rest IH]; [reflexivity|].
  cbn [flat_map filter]. rewrite IH.
  destruct (nonempty label); cbn [andb]; [|reflexivity].
  rewrite (GetChannel_ok u _ w Hp). unfold absent. cbn [fst].
  destruct (select_channel (store w) (Id u) (slug_of ToLower label)); reflexivity.
Qed.

(** X9: on a working storage handle, the list that [AddChannels]
    returns has one nil entry for every non-empty label, repeated
    labels counted each time, whose slug had no committed channel of
    the user when the call began, and nothing else; this is so
    whatever becomes of the inserts. *)
Theorem AddChannels_reports_absent_before (u : User) (names : list string) (w : World) :
  storage_ok w ->
  exists w' : World,
    AddChannels ToLower u names w =
    (Ret (map (fun _ => None)
              (filter (fun label => andb (nonempty label)
                                         (absent (store w) (Id u) (slug_of ToLower label)))
                      names), None), w').
Proof.
  intros Hok. rewrite (AddChannels_eq ToLower u names w Hok).
  rewrite (reported_absent u names w (proj2 Hok)).
  eexists. reflexivity.
Qed.




End ChannelLookups.

(** ** AddPost: every path *)

(** [AddPost] up to its loop, once the token is generated and the post
    row inserted. *)
Lemma AddPost_to_loop (u : User) (body u4 : string) (rest : list string)
      (channels : list (option Channel)) (id : Z) (t1 : option DB) (w : World) :
  storage_ok w ->
  entropy w = u4 :: rest ->
  exec1 (insert_post (Id u) u4 body (now w)) (fst (pop (exec_faults w)))
        (Some (store w)) = (inl id, t1) ->
  AddPost u body channels w =
  (AddPost_channels id channels ;;;
   Commit ;;;
   '(post, err) <- GetPost id ;;
   match err with
   | Some err => ret (None, Some err)
   | None => ret (post, None)
   end)
    (mkWorld (store w) t1 (begin_faults w) (prepare_faults w)
             (snd (pop (exec_faults w))) rest (now w) (txlog w ++ [TxBegin])).
Proof.
  intros [Hb Hp] He Hx. unfold AddPost.
  rewrite (bind_Ret _ _ _ _ _ (Begin_ok w Hb)).
  unfold bind at 1. unfold NewV4. cbn [entropy begun]. rewrite He.
  set (w2 := mkWorld _ _ _ _ _ rest _ _).
  assert (Hp2 : prepare_faults w2 = []) by exact Hp.
  rewrite (bind_Ret _ _ _ _ _ (Prepare_ok _ Hp2)).
  unfold bind at 1. unfold time_Now_Unix.
  unfold bind at 1. rewrite Exec_eq.
  change (now w2) with (now w). change (exec_faults w2) with (exec_faults w).
  change (tx w2) with (Some (store w)).
  rewrite Hx. cbn [fst snd LastInsertId].
  set (w3 := set_tx w2 t1 _).
  assert (Hp3 : prepare_faults w3 = []) by exact Hp.
  rewrite (bind_Ret _ _ _ _ _ (Prepare_ok _ Hp3)).
  reflexivity.
Qed.

(** The loop over any list of channel pointers: it returns, or panics
    at the first nil pointer; either way it has only appended join rows
    to the working copy. *)
Lemma AddPost_channels_any (id : Z) (channels : list (option Channel)) :
  forall (w : World) (d : DB),
    tx w = Some d ->
    exists (joins : list (Z * Z)) (faults : list bool),
      AddPost_channels id channels w =
      (if existsb (fun c => match c with None => true | Some _ => false end) channels
       then Panic else Ret tt,
       set_tx w (Some (mkDB (users d) (channel d) (post d) (postchannel d ++ joins)))
              faults).
Proof.
  induction channels as [|c rest IH]; intros w d Ht.
  - exists [], (exec_faults w). cbn. rewrite app_nil_r.
    replace (mkDB (users d) (channel d) (post d) (postchannel d)) with d
      by (destruct d; reflexivity).
    rewrite <- Ht, set_tx_id. reflexivity.
  - destruct c as [c|].
    + cbn [AddPost_channels existsb orb]. unfold bind. rewrite Exec_eq.
      set (w1 := set_tx w _ _).
      assert (H1 : exists j1, tx w1 = Some (mkDB (users d) (channel d) (post d)
                                                 (postchannel d ++ j1))).
      { unfold w1. cbn [tx set_tx]. rewrite Ht. unfold exec1.
        destruct (fst (pop (exec_faults w))); cbn [snd].
        - exists []. rewrite app_nil_r. destruct d; reflexivity.
        - cbn. eexists. reflexivity. }
      destruct H1 as [j1 H1].
      destruct (IH w1 _ H1) as [joins [faults Hrun]].
      rewrite Hrun. cbn [users channel post postchannel].
      exists (j1 ++ joins), faults. rewrite app_assoc.
      destruct (existsb _ rest); reflexivity.
    + cbn [AddPost_channels existsb orb]. exists [], (exec_faults w).
      rewrite app_nil_r.
      replace (mkDB (users d) (channel d) (post d) (postchannel d)) with d
        by (destruct d; reflexivity).
      rewrite <- Ht, set_tx_id. reflexivity.
Qed.

(** X11: when the token is generated and the post row inserted, a nil
    pointer anywhere in the list of channels makes [AddPost] panic in
    its loop: nothing is committed, the committed contents are as
    before the call, and the transaction stays open. *)
Theorem AddPost_nil_channel_panics
        (u : User) (body u4 : string) (rest : list string)
        (channels : list (option Channel)) (id : Z) (t1 : option DB) (w : World) :
  storage_ok w ->
  entropy w = u4 :: rest ->
  exec1 (insert_post (Id u) u4 body (now w)) (fst (pop (exec_faults w)))
        (Some (store w)) = (inl id, t1) ->
  In None channels ->
  exists w' : World,
    AddPost u body channels w = (Panic, w') /\
    store w' = store w /\
    txlog w' = txlog w ++ [TxBegin] /\
    tx w' <> None.
Proof.
  intros Hok He Hx Hnil.
  rewrite (AddPost_to_loop u body u4 rest channels id t1 w Hok He Hx).
  assert (Ht : exists d1, t1 = Some d1).
  { unfold exec1 in Hx. destruct (fst (pop (exec_faults w))); [discriminate|].
    destruct (insert_post _ _ _ _ _) as [[d1 i]|]; [|discriminate].
    inversion Hx. eexists. reflexivity. }
  destruct Ht as [d1 ->].
  set (w3 := mkWorld _ _ _ _ _ _ _ _).
  destruct (AddPost_channels_any id channels w3 d1 eq_refl) as [joins [faults Hrun]].
  assert (Hex : existsb (fun c : option Channel =>
                           match c with None => true | Some _ => false end) channels = true).
  { apply existsb_exists. exists None. split; [exact Hnil|reflexivity]. }
  rewrite Hex in Hrun.
  eexists. unfold bind at 1. rewrite Hrun. split; [reflexivity|].
  cbn. repeat split. discriminate.
Qed.

(** X12: the list that [AddChannels] returns cannot be given to
    [AddPost]: whenever it is not empty, [AddPost] with it as channels,
    in the world [AddChannels] left, panics in its loop once the token
    is generated and the post row inserted. *)
Theorem AddChannels_result_panics_AddPost
        (ToLower : string -> string) (u : User) (names : list string)
        (body u4 : string) (rest : list string) (id : Z) (t1 : option DB)
        (created : list (option Channel)) (w w1 : World) :
  storage_ok w ->
  AddChannels ToLower u names w = (Ret (created, None), w1) ->
  created <> [] ->
  entropy w1 = u4 :: rest ->
  exec1 (insert_post (Id u) u4 body (now w1)) (fst (pop (exec_faults w1)))
        (Some (store w1)) = (inl id, t1) ->
  fst (AddPost u body created w1) = Panic /\
  store (snd (AddPost u body created w1)) = store w1.
Proof.
  intros Hok Hrun Hne He Hx.
  rewrite (AddChannels_eq ToLower u names w Hok) in Hrun.
  rewrite (reported_absent ToLower u names w (proj2 Hok)) in Hrun.
  injection Hrun as Hc Hw.
  assert (Hok1 : storage_ok w1) by (rewrite <- Hw; exact Hok).
  assert (Hnil : In None created).
  { rewrite <- Hc in Hne |- *.
    destruct (filter _ names) as [|l ls]; [contradiction|]. left. reflexivity. }
  assert (Ht : exists d1, t1 = Some d1).
  { unfold exec1 in Hx. destruct (fst (pop (exec_faults w1))); [discriminate|].
    destruct (insert_post _ _ _ _ _) as [[d1 i]|]; [|discriminate].
    inversion Hx. eexists. reflexivity. }
  destruct Ht as [d1 ->].
  pose proof (AddPost_to_loop u body u4 rest created id (Some d1) w1 Hok1 He Hx) as E.
  set (w3 := mkWorld _ _ _ _ _ _ _ _) in E.
  destruct (AddPost_channels_any id created w3 d1 eq_refl) as [joins [faults Hl]].
  assert (Hex : existsb (fun c : option Channel =>
                           match c with None => true | Some _ => false end) created = true).
  { apply existsb_exists. exists None. split; [exact Hnil|reflexivity]. }
  rewrite Hex in Hl. unfold bind at 1 in E. rewrite Hl in E.
  rewrite E. split; reflexivity.
Qed.

(** What [AddPost] does to the tables on every path from a working
    storage handle: it appends at most one post row, with a new
    identifier and a token no stored post carries, and join rows only
    together with it; the user and channel tables are as they were. *)
Lemma AddPost_store (u : User) (body : string) (channels : list (option Channel))
      (w : World) :
  storage_ok w ->
  exists (out : Outcome (option Post * option error)) (w' : World)
         (newposts : list PostRow) (newjoins : list (Z * Z)),
    AddPost u body channels w = (out, w') /\
    prepare_faults w' = [] /\
    users (store w') = users (store w) /\
    channel (store w') = channel (store w) /\
    post (store w') = post (store w) ++ newposts /\
    postchannel (store w') = postchannel (store w) ++ newjoins /\
    (newposts = [] /\ newjoins = [] \/
     exists u4,
       (forall r, In r (post (store w)) -> pr_uuid r <> u4) /\
       newposts = [mkPostRow (next_id (map pr_id (post (store w)))) u4 (Id u)
                             body (now w)]).
Proof.
  intros Hok. pose proof Hok as [Hb Hp].
  destruct (entropy w) as [|u4 rest] eqn:He.
  - exists (Ret (None, Some ErrRand)), (begun w), [], [].
    split.
    + unfold AddPost. rewrite (bind_Ret _ _ _ _ _ (Begin_ok w Hb)).
      unfold bind, NewV4. cbn [entropy begun]. rewrite He. reflexivity.
    + cbn [begun store prepare_faults]. rewrite !app_nil_r.
      repeat split; [exact Hp|]. left. split; reflexivity.
  - destruct (exec1 (insert_post (Id u) u4 body (now w)) (fst (pop (exec_faults w)))
                    (Some (store w))) as [[id|e] t1] eqn:Hx.
    + assert (Hd : (forall r, In r (post (store w)) -> pr_uuid r <> u4) /\
                   id = next_id (map pr_id (post (store w))) /\
                   t1 = Some (mkDB (users (store w)) (channel (store w))
                                   (post (store w) ++
                                    [mkPostRow id u4 (Id u) body (now w)])
                                   (postchannel (store w)))).
      { unfold exec1, insert_post in Hx.
        destruct (fst (pop (exec_faults w))); [discriminate|].
        destruct (find _ (post (store w))) eqn:F; [discriminate|].
        inversion Hx. repeat split.
        intros r Hr. apply String.eqb_neq. exact (find_none _ _ F r Hr). }
      destruct Hd as [Hfresh [Hid Ht1]].
      set (d1 := mkDB _ _ _ _) in Ht1.
      rewrite (AddPost_to_loop u body u4 rest channels id t1 w Hok He Hx).
      rewrite Ht1.
      set (w3 := mkWorld _ _ _ _ _ _ _ _).
      destruct (AddPost_channels_any id channels w3 d1 eq_refl) as [joins [faults Hl]].
      unfold bind at 1. rewrite Hl.
      destruct (existsb _ channels).
      * eexists. eexists. exists [], []. split; [reflexivity|].
        cbn. rewrite !app_nil_r. repeat split; [exact Hp|].
        left. split; reflexivity.
      * unfold bind at 1. unfold Commit. cbn [tx set_tx].
        set (w4 := mkWorld _ None _ _ _ _ _ _).
        assert (Hp4 : prepare_faults w4 = []) by exact Hp.
        rewrite (AddPost_tail id w4 Hp4), (GetPost_ok id w4 Hp4).
        eexists. exists w4, [mkPostRow id u4 (Id u) body (now w)], joins.
        split; [reflexivity|]. cbn. repeat split; [exact Hp|].
        right. exists u4. split; [exact Hfresh|]. rewrite Hid. reflexivity.
    + eexists. eexists. exists [], []. split.
      * unfold AddPost.
        rewrite (bind_Ret _ _ _ _ _ (Begin_ok w Hb)).
        unfold bind at 1. unfold NewV4. cbn [entropy begun]. rewrite He.
        set (w2 := mkWorld _ _ _ _ _ rest _ _).
        assert (Hp2 : prepare_faults w2 = []) by exact Hp.
        rewrite (bind_Ret _ _ _ _ _ (Prepare_ok _ Hp2)).
        unfold bind at 1. unfold time_Now_Unix.
        unfold bind at 1. rewrite Exec_eq.
        change (now w2) with (now w). change (exec_faults w2) with (exec_faults w).
        change (tx w2) with (Some (store w)).
        rewrite Hx. cbn [fst snd]. reflexivity.
      * cbn. rewrite !app_nil_r. repeat split; [exact Hp|].
        left. split; reflexivity.
Qed.

(** X13: on a working storage handle and on every path of [AddPost]
    (a failed token, a failed insert, failed join rows, a nil channel
    pointer, success), a post that was stored before the call is read
    by [GetPost] afterwards exactly as before, and the user and channel
    tables are as they were. *)
Theorem AddPost_keeps_existing_posts
        (u : User) (body : string) (channels : list (option Channel)) (w : World) :
  storage_ok w ->
  exists (out : Outcome (option Post * option error)) (w' : World),
    AddPost u body channels w = (out, w') /\
    (forall id r, select_post_by_id (store w) id = Some r ->
                  fst (GetPost id w') = fst (GetPost id w)) /\
    users (store w') = users (store w) /\
    channel (store w') = channel (store w).
Proof.
  intros Hok.
  destruct (AddPost_store u body channels w Hok)
    as [out [w' [np [nj [Hrun [Hp' [Hu [Hc [Hpo _]]]]]]]]].
  exists out, w'. split; [exact Hrun|]. split; [|split; assumption].
  intros id r Hr.
  rewrite (GetPost_ok id w' Hp'), (GetPost_ok id w (proj2 Hok)). cbn [fst].
  assert (Hr' : select_post_by_id (store w') id = Some r).
  { unfold select_post_by_id in *. rewrite Hpo. apply find_app_first. exact Hr. }
  rewrite Hr, Hr'. unfold select_user_by_id. rewrite Hu. reflexivity.
Qed.

(** ** The keys of the tables *)

Lemma NoDup_snoc {A : Type} (l : list A) (x : A) :
  NoDup l -> ~ In x l -> NoDup (l ++ [x]).
Proof.
  intros Hl Hx. apply NoDup_app; [exact Hl|constructor; [intros []|constructor]|].
  intros a Ha [<-|[]]. exact (Hx Ha).
Qed.

Lemma next_id_not_in (ids : list Z) : ~ In (next_id ids) ids.
Proof. intros H. pose proof (next_id_fresh ids _ H). lia. Qed.

Lemma insert_user_wf (username password : string) (d d' : DB) (id : Z) :
  db_wf d -> insert_user username password d = Some (d', id) -> db_wf d'.
Proof.
  intros [H1 [H2 [H3 [H4 [H5 H6]]]]] E. unfold insert_user in E.
  destruct (select_user_by_username d username) eqn:S; [discriminate|].
  inversion E; subst. unfold db_wf, channel_unique, post_ids_unique.
  cbn [users channel post]. rewrite !map_app. cbn [map ur_id ur_username].
  repeat split; try assumption.
  - apply NoDup_snoc; [exact H1|apply next_id_not_in].
  - apply NoDup_snoc; [exact H2|].
    intros Hin. apply in_map_iff in Hin. destruct Hin as [r [Hn Hr]].
    pose proof (find_none _ _ S r Hr) as Hf. cbv beta in Hf.
    apply String.eqb_neq in Hf. contradiction.
Qed.

Lemma insert_channel_wf (user_id : Z) (slug label : string) (d d' : DB) (id : Z) :
  db_wf d -> insert_channel user_id slug label d = Some (d', id) -> db_wf d'.
Proof.
  intros [H1 [H2 [H3 [H4 [H5 H6]]]]] E.
  assert (Hs : schema_ok d') by (exact (insert_channel_schema _ _ _ _ _ _ (conj H4 H5) E)).
  unfold insert_channel in E.
  destruct (select_channel d user_id slug); [discriminate|].
  inversion E; subst. unfold db_wf. cbn [users channel post] in *.
  repeat split; try assumption; try exact (proj1 Hs).
  rewrite map_app. cbn [map cr_id].
  apply NoDup_snoc; [exact H3|apply next_id_not_in].
Qed.

Lemma insert_post_wf (user_id : Z) (uuid body : string) (posted : Z)
      (d d' : DB) (id : Z) :
  db_wf d -> insert_post user_id uuid body posted d = Some (d', id) -> db_wf d'.
Proof.
  intros [H1 [H2 [H3 [H4 [H5 H6]]]]] E. unfold insert_post in E.
  destruct (find _ (post d)) eqn:F; [discriminate|].
  inversion E; subst. unfold db_wf, channel_unique, post_ids_unique.
  cbn [users channel post]. rewrite !map_app. cbn [map pr_id pr_uuid].
  repeat split; try assumption.
  - apply NoDup_snoc; [exact H5|apply next_id_not_in].
  - apply NoDup_snoc; [exact H6|].
    intros Hin. apply in_map_iff in Hin. destruct Hin as [r [Hn Hr]].
    pose proof (find_none _ _ F r Hr) as Hf. cbv beta in Hf.
    apply String.eqb_neq in Hf. contradiction.
Qed.

(** X14: on a working storage handle, each of the three writing
    operations, on every path and whatever the driver does to its
    statements, leaves the committed tables keyed as the schema says:
    user, channel and post identifiers are not reused, and usernames,
    [(user_id, slug)] pairs and post tokens stay unique. *)
Theorem writers_keep_keys (ToLower SetPassword : string -> string) (w : World) :
  storage_ok w ->
  db_wf (store w) ->
  (forall username password,
      db_wf (store (snd (CreateUser SetPassword username password w)))) /\
  (forall u names,
      db_wf (store (snd (AddChannels ToLower u names w)))) /\
  (forall u body channels,
      db_wf (store (snd (AddPost u body channels w)))).
Proof.
  intros Hok Hwf. split; [|split].
  - intros username password.
    pose proof (CreateUser_eq SetPassword username password w Hok) as H.
    cbv zeta in H. rewrite H. cbn [snd].
    eapply commits_preserves; [|apply commits_committed|exact Hwf].
    intros ins [<-|[]] d d' id. apply insert_user_wf.
  - intros u names. rewrite (AddChannels_eq ToLower u names w Hok). cbn [snd].
    eapply commits_preserves; [|apply commits_committed|exact Hwf].
    intros ins Hin. unfold channel_stmts in Hin. apply in_map_iff in Hin.
    destruct Hin as [label [<- _]]. intros d d' id. apply insert_channel_wf.
  - intros u body channels.
    destruct (AddPost_store u body channels w Hok)
      as [out [w' [np [nj [Hrun [_ [Hu [Hc [Hpo [_ Hnew]]]]]]]]]].
    rewrite Hrun. cbn [snd].
    destruct Hwf as [H1 [H2 [H3 [H4 [H5 H6]]]]].
    unfold db_wf, channel_unique, post_ids_unique in *.
    rewrite Hu, Hc, Hpo.
    destruct Hnew as [[-> _]|[u4 [Hfresh ->]]].
    + rewrite app_nil_r. repeat split; assumption.
    + rewrite !map_app. cbn [map pr_id pr_uuid].
      repeat split; try assumption.
      * apply NoDup_snoc; [exact H5|apply next_id_not_in].
      * apply NoDup_snoc; [exact H6|].
        intros Hin. apply in_map_iff in Hin. destruct Hin as [r [Hn Hr]].
        exact (Hfresh r Hr Hn).
Qed.

(** ** Lookups by name and by identifier *)

Lemma find_by_key {A K : Type} (key : A -> K) (eqb : K -> K -> bool)
      (l : list A) (r : A) :
  (forall x y, eqb x y = true <-> x = y) ->
  NoDup (map key l) -> In r l ->
  find (fun x => eqb (key x) (key r)) l = Some r.
Proof.
  intros Heq. induction l as [|a l IH]; intros Hn Hr; [contradiction|].
  cbn [map] in Hn. inversion Hn as [|? ? Hnotin Hn']; subst.
  cbn [find]. destruct (eqb (key a) (key r)) eqn:E.
  - destruct Hr as [->|Hr]; [reflexivity|].
    exfalso. apply Hnotin. apply Heq in E. rewrite E. apply in_map. exact Hr.
  - destruct Hr as [->|Hr]; [|exact (IH Hn' Hr)].
    assert (eqb (key r) (key r) = true) by (apply Heq; reflexivity). congruence.
Qed.

(** X15: on a working storage handle whose user table has unique
    identifiers and unique usernames, the two lookups of users agree:
    the user [GetUser] finds by a username is the user [GetUserById]
    finds by that user's identifier, and the user [GetUserById] finds
    by an identifier is the user [GetUser] finds by that user's
    username. *)
Theorem GetUser_GetUserById_agree (w : World) :
  storage_ok w ->
  db_wf (store w) ->
  (forall username u,
      fst (GetUser username w) = Ret (Some u, true) ->
      fst (GetUserById (Id u) w) = Ret (Some u, None)) /\
  (forall id u,
      fst (GetUserById id w) = Ret (Some u, None) ->
      fst (GetUser (Username u) w) = Ret (Some u, true)).
Proof.
  intros [_ Hp] [Hids [Hnames _]]. split.
  - intros username u. rewrite (GetUser_ok username w Hp), (GetUserById_ok _ w Hp).
    cbn [fst]. unfold select_user_by_username.
    destruct (find _ (users (store w))) as [r|] eqn:F; [|discriminate].
    intros H. inversion H; subst u. clear H. cbn [Id].
    destruct (find_some _ _ F) as [Hr Hn]. apply String.eqb_eq in Hn.
    unfold select_user_by_id.
    rewrite (find_by_key ur_id Z.eqb (users (store w)) r Z.eqb_eq Hids Hr).
    rewrite Hn. reflexivity.
  - intros id u. rewrite (GetUserById_ok id w Hp), (GetUser_ok _ w Hp).
    cbn [fst]. unfold select_user_by_id.
    destruct (find _ (users (store w))) as [r|] eqn:F; [|discriminate].
    intros H. inversion H; subst u. clear H. cbn [Username].
    destruct (find_some _ _ F) as [Hr Hn]. apply Z.eqb_eq in Hn.
    unfold select_user_by_username.
    rewrite (find_by_key ur_username String.eqb (users (store w)) r
                         String.eqb_eq Hnames Hr).
    rewrite Hn. reflexivity.
Qed.

(** X16: on a working storage handle whose channel identifiers are
    unique, a channel that [GetChannel] finds for a user and a slug is
    found again by [GetChannelById] under its identifier, with the same
    slug and label, provided that the owner is a stored user: the owner
    returned is then the stored one.  When no user is stored under the
    owner's identifier, [GetChannelById] returns [sql.ErrNoRows] for a
    channel that [GetChannel] returns. *)
Theorem GetChannel_GetChannelById_agree
        (u : User) (slug : string) (c : Channel) (w : World) :
  storage_ok w ->
  db_wf (store w) ->
  fst (GetChannel u slug w) = Ret (Some c, None) ->
  fst (GetChannelById (cId c) w) =
  Ret (match select_user_by_id (store w) (Id u) with
       | Some ur =>
           (Some (mkChannel (cId c)
                    (Some (mkUser (Id u) (ur_username ur) (bytes (ur_password ur))))
                    slug (Label c)), None)
       | None => (None, Some ErrNoRows)
       end).
Proof.
  intros [_ Hp] [_ [_ [Hcids _]]].
  rewrite (GetChannel_ok u slug w Hp). cbn [fst]. unfold select_channel.
  destruct (find _ (channel (store w))) as [r|] eqn:F; [|discriminate].
  intros H. inversion H; subst c. clear H. cbn [cId Label].
  destruct (find_some _ _ F) as [Hr Hk]. apply has_key_true in Hk.
  inversion Hk as [[Huid Hslug]].
  unfold GetChannelById.
  rewrite (bind_Ret _ _ _ _ _ (Prepare_ok w Hp)).
  unfold bind at 1. unfold QueryRow, select_channel_by_id.
  rewrite (find_by_key cr_id Z.eqb (channel (store w)) r Z.eqb_eq Hcids Hr).
  unfold bind. rewrite (GetUserById_ok _ w Hp). cbn [fst].
  destruct (select_user_by_id (store w) (cr_user_id r)); reflexivity.
Qed.

(** ** The feeds *)

Lemma GetAllUserPosts_eq (u : User) (limit offset : Z) (w : World) :
  prepare_faults w = [] ->
  GetAllUserPosts (Some u) limit offset w =
  (Ret (map (fun r => Some (mkPost (pr_id r) (pr_uuid r) (Some u)
                                   (pr_body r) (pr_posted r)))
            (select_user_posts (store w) (Id u) limit offset), None), w).
Proof.
  intros Hp. unfold GetAllUserPosts.
  rewrite (bind_Ret _ _ _ _ _ (Prepare_ok w Hp)).
  unfold bind, Query, ret.
  rewrite (fold_left_snoc
             (fun r => Some (mkPost (pr_id r) (pr_uuid r) (Some u)
                                    (pr_body r) (pr_posted r)))).
  reflexivity.
Qed.

Lemma insert_desc_head (a : PostRow) (l : list PostRow) :
  (forall y, In y l -> pr_posted y < pr_posted a) -> insert_desc a l = a :: l.
Proof.
  destruct l as [|x l]; intros H; [reflexivity|].
  cbn [insert_desc]. specialize (H x (or_introl eq_refl)).
  apply Z.ltb_lt in H. rewrite H. reflexivity.
Qed.

Lemma filter_insert_desc (p : PostRow -> bool) (a : PostRow) (l : list PostRow) :
  StronglySorted (fun r s => pr_posted s <= pr_posted r) l ->
  filter p (insert_desc a l) =
  if p a then insert_desc a (filter p l) else filter p l.
Proof.
  induction 1 as [|x l Hs IH Hx].
  - cbn. destruct (p a); reflexivity.
  - cbn [insert_desc]. destruct (Z.ltb (pr_posted x) (pr_posted a)) eqn:E.
    + apply Z.ltb_lt in E. cbn [filter]. destruct (p a); [|reflexivity].
      symmetry. apply insert_desc_head. intros y Hy.
      change (if p x then x :: filter p l else filter p l)
        with (filter p (x :: l)) in Hy.
      apply filter_In in Hy. destruct Hy as [[<-|Hy] _]; [exact E|].
      rewrite Forall_forall in Hx. specialize (Hx y Hy). lia.
    + cbn [filter]. rewrite IH. destruct (p x), (p a); try reflexivity.
      cbn [insert_desc]. rewrite E. reflexivity.
Qed.

Lemma order_by_posted_desc_filter (p : PostRow -> bool) (l : list PostRow) :
  order_by_posted_desc (filter p l) = filter p (order_by_posted_desc l).
Proof.
  induction l as [|a l IH]; [reflexivity|].
  cbn [filter]. change (order_by_posted_desc (a :: l))
    with (insert_desc a (order_by_posted_desc l)).
  rewrite (filter_insert_desc p a _ (order_by_posted_desc_sorted l)).
  destruct (p a); [|exact IH].
  change (order_by_posted_desc (a :: filter p l))
    with (insert_desc a (order_by_posted_desc (filter p l))).
  rewrite IH. reflexivity.
Qed.

Lemma filter_owned_posts_of (u : User) (ur : UserRow) (d : DB) (rows : list PostRow) :
  select_user_by_id d (Id u) = Some ur ->
  u = mkUser (Id u) (ur_username ur) (bytes (ur_password ur)) ->
  filter (owned_by (Id u)) (map Some (posts_of d rows)) =
  map (fun r => Some (mkPost (pr_id r) (pr_uuid r) (Some u) (pr_body r) (pr_posted r)))
      (filter (fun r => Z.eqb (pr_user_id r) (Id u)) rows).
Proof.
  intros Hur Hu. induction rows as [|r rows IH]; [reflexivity|].
  rewrite posts_of_cons, map_app, filter_app, IH. cbn [filter].
  destruct (Z.eqb (pr_user_id r) (Id u)) eqn:E.
  - apply Z.eqb_eq in E. rewrite E, Hur. cbn [map filter owned_by Id app].
    rewrite Z.eqb_refl. cbn [app map]. rewrite <- Hu. reflexivity.
  - destruct (select_user_by_id d (pr_user_id r)); [|reflexivity].
    cbn [map filter owned_by Id]. rewrite E. reflexivity.
Qed.

(** X17: on a working storage handle, for a user as [GetUserById]
    returns it, the unlimited page of [GetAllUserPosts] is the
    unlimited feed of [GetAllPosts] restricted to the posts of that
    user, in the same order. *)
Theorem user_page_is_part_of_feed (u : User) (w : World) :
  storage_ok w ->
  fst (GetUserById (Id u) w) = Ret (Some u, None) ->
  exists feed : list (option Post),
    GetAllPosts (-1) 0 w = (Ret (feed, None), w) /\
    GetAllUserPosts (Some u) (-1) 0 w = (Ret (filter (owned_by (Id u)) feed, None), w).
Proof.
  intros [_ Hp] Hu.
  rewrite (GetUserById_ok _ w Hp) in Hu. cbn [fst] in Hu.
  destruct (select_user_by_id (store w) (Id u)) as [ur|] eqn:Hur; [|discriminate].
  injection Hu as Hrec.
  eexists. split; [apply (GetAllPosts_eq _ _ w Hp)|].
  rewrite (GetAllUserPosts_eq u _ _ w Hp), (resolved_posts_of w _ Hp).
  unfold select_all_posts, select_user_posts, limit_offset.
  change (Z.ltb (-1) 0) with true. change (Z.to_nat 0) with 0%nat. cbn [skipn].
  rewrite (filter_owned_posts_of u ur (store w) _ Hur (eq_sym Hrec)).
  rewrite order_by_posted_desc_filter. reflexivity.
Qed.

Lemma fold_insert_desc_newest (r : PostRow) (l : list PostRow) :
  (forall x, In x l -> pr_posted x < pr_posted r) ->
  forall S : list PostRow,
    fold_right insert_desc (r :: S) l = r :: fold_right insert_desc S l.
Proof.
  induction l as [|a l IH]; intros H S; [reflexivity|].
  cbn [fold_right]. rewrite IH by (intros x Hx; apply H; right; exact Hx).
  cbn [insert_desc].
  replace (Z.ltb (pr_posted r) (pr_posted a)) with false; [reflexivity|].
  symmetry. apply Z.ltb_ge. specialize (H a (or_introl eq_refl)). lia.
Qed.

Lemma order_by_posted_desc_newest (r : PostRow) (l : list PostRow) :
  (forall x, In x l -> pr_posted x < pr_posted r) ->
  order_by_posted_desc (l ++ [r]) = r :: order_by_posted_desc l.
Proof.
  intros H. unfold order_by_posted_desc. rewrite fold_right_app. cbn [fold_right].
  change (insert_desc r []) with [r]. apply fold_insert_desc_newest. exact H.
Qed.

(** [AddPost] on its successful path, with the world it leaves. *)
Lemma AddPost_success (u : User) (body u4 : string) (rest : list string)
      (chans : list Channel) (w : World) :
  storage_ok w ->
  entropy w = u4 :: rest ->
  (forall r, In r (post (store w)) -> pr_uuid r <> u4) ->
  fst (pop (exec_faults w)) = false ->
  exists w' : World,
    AddPost u body (map Some chans) w =
    GetPost (next_id (map pr_id (post (store w)))) w' /\
    prepare_faults w' = [] /\
    users (store w') = users (store w) /\
    post (store w') =
    post (store w) ++ [mkPostRow (next_id (map pr_id (post (store w)))) u4 (Id u)
                                 body (now w)].
Proof.
  intros Hok He Hfresh Hf.
  set (id := next_id (map pr_id (post (store w)))).
  set (row := mkPostRow id u4 (Id u) body (now w)).
  set (d1 := mkDB (users (store w)) (channel (store w)) (post (store w) ++ [row])
                  (postchannel (store w))).
  assert (Hx : exec1 (insert_post (Id u) u4 body (now w)) (fst (pop (exec_faults w)))
                     (Some (store w)) = (inl id, Some d1)).
  { unfold exec1, insert_post. rewrite Hf.
    replace (find (fun r => String.eqb (pr_uuid r) u4) (post (store w)))
      with (@None PostRow); [reflexivity|].
    symmetry. apply find_none_iff. intros r Hr.
    apply String.eqb_neq. exact (Hfresh r Hr). }
  destruct (AddPost_eq u body u4 rest chans id (Some d1) w Hok He Hx)
    as [w' [Hrun [[_ [_ Hstore]] [Hp' _]]]].
  exists w'. split; [exact Hrun|]. split; [exact Hp'|].
  unfold post_stmts in Hstore. cbn [run_stmts] in Hstore.
  rewrite Hx in Hstore. cbn [snd] in Hstore.
  rewrite run_stmts_joins in Hstore. injection Hstore as Hs.
  rewrite Hs. split; reflexivity.
Qed.

(** X18: on a working storage handle, when [AddPost] succeeds for a
    stored user at a time later than the timestamp of every stored
    post, the post it returns is the first one of the global feed and
    the first one of the page of its owner, for every limit of at
    least 1 at offset 0. *)
Theorem AddPost_heads_the_feeds
        (u : User) (ur : UserRow) (body u4 : string) (rest : list string)
        (chans : list Channel) (N : Z) (w : World) :
  storage_ok w ->
  entropy w = u4 :: rest ->
  (forall r, In r (post (store w)) -> pr_uuid r <> u4) ->
  fst (pop (exec_faults w)) = false ->
  select_user_by_id (store w) (Id u) = Some ur ->
  (forall r, In r (post (store w)) -> pr_posted r < now w) ->
  0 < N ->
  exists (w' : World) (p : Post) (feed page : list (option Post)),
    AddPost u body (map Some chans) w = (Ret (Some p, None), w') /\
    Body p = body /\
    GetAllPosts N 0 w' = (Ret (Some p :: feed, None), w') /\
    GetAllUserPosts (pUser p) N 0 w' = (Ret (Some p :: page, None), w').
Proof.
  intros Hok He Hfresh Hf Hur Hnew HN.
  destruct (AddPost_success u body u4 rest chans w Hok He Hfresh Hf)
    as [w' [Hrun [Hp' [Hu Hpo]]]].
  set (id := next_id (map pr_id (post (store w)))) in *.
  set (row := mkPostRow id u4 (Id u) body (now w)) in *.
  set (su := mkUser (Id u) (ur_username ur) (bytes (ur_password ur))).
  assert (Hur' : select_user_by_id (store w') (Id u) = Some ur).
  { unfold select_user_by_id in *. rewrite Hu. exact Hur. }
  assert (Hn : exists n, Z.to_nat N = S n).
  { exists (Nat.pred (Z.to_nat N)). lia. }
  destruct Hn as [n Hn].
  exists w', (mkPost id u4 (Some su) body (now w)).
  eexists. eexists. split; [|split; [reflexivity|split]].
  - rewrite Hrun, (GetPost_ok id w' Hp').
    unfold select_post_by_id. rewrite Hpo.
    rewrite (find_app_last (fun r => Z.eqb (pr_id r) id) (post (store w)) row).
    + cbn [pr_user_id row]. rewrite Hur'. reflexivity.
    + intros y Hy. apply Z.eqb_neq.
      pose proof (next_id_fresh _ _ (in_map pr_id _ _ Hy)) as Hlt.
      fold id in Hlt. lia.
    + apply Z.eqb_refl.
  - rewrite (GetAllPosts_eq N 0 w' Hp').
    rewrite select_all_posts_page by lia.
    change (Z.to_nat 0) with 0%nat. cbn [skipn]. rewrite Hn, Hpo.
    rewrite (order_by_posted_desc_newest row _ Hnew).
    cbn [firstn]. unfold resolved. cbn [flat_map].
    rewrite (GetUserById_ok _ w' Hp'). cbn [fst pr_user_id row].
    rewrite Hur'. cbn [app]. reflexivity.
  - cbn [pUser]. rewrite (GetAllUserPosts_eq su N 0 w' Hp').
    unfold select_user_posts, limit_offset.
    replace (Z.ltb N 0) with false by (symmetry; apply Z.ltb_ge; lia).
    change (Z.to_nat 0) with 0%nat. cbn [skipn]. rewrite Hn, Hpo.
    rewrite filter_app. cbn [filter pr_user_id row Id su].
    rewrite Z.eqb_refl.
    rewrite (order_by_posted_desc_newest row).
    + cbn [firstn map]. reflexivity.
    + intros x Hx. apply filter_In in Hx. exact (Hnew x (proj1 Hx)).
Qed.

(** ** Error paths of AddPost and GetPost *)

(** X19: the transaction of [AddPost] is begun before the token is
    generated: when [uuid.NewV4] fails, [AddPost] returns a nil post
    and the error of the random source, nothing is written, and the
    transaction is left open, neither committed nor rolled back. *)
Theorem AddPost_token_fails
        (u : User) (body : string) (channels : list (option Channel)) (w : World) :
  storage_ok w ->
  entropy w = [] ->
  exists w' : World,
    AddPost u body channels w = (Ret (None, Some ErrRand), w') /\
    store w' = store w /\
    txlog w' = txlog w ++ [TxBegin] /\
    tx w' = Some (store w).
Proof.
  intros [Hb Hp] He. exists (begun w). split; [|repeat split].
  unfold AddPost. rewrite (bind_Ret _ _ _ _ _ (Begin_ok w Hb)).
  unfold bind, NewV4. cbn [entropy begun]. rewrite He. reflexivity.
Qed.

(** X20: on a working storage handle [GetPost] returns the post with
    its owner, token, body and timestamp when the post row and the row
    of its owner both exist; it returns a nil post with [sql.ErrNoRows]
    when the post row is missing, and the same when the post row exists
    and its owner is not stored. *)
Theorem GetPost_found_or_ErrNoRows (id : Z) (w : World) :
  storage_ok w ->
  (select_post_by_id (store w) id = None ->
   GetPost id w = (Ret (None, Some ErrNoRows), w)) /\
  (forall r, select_post_by_id (store w) id = Some r ->
             select_user_by_id (store w) (pr_user_id r) = None ->
             GetPost id w = (Ret (None, Some ErrNoRows), w)) /\
  (forall r ur, select_post_by_id (store w) id = Some r ->
                select_user_by_id (store w) (pr_user_id r) = Some ur ->
                GetPost id w =
                (Ret (Some (mkPost id (pr_uuid r)
                              (Some (mkUser (pr_user_id r) (ur_username ur)
                                            (bytes (ur_password ur))))
                              (pr_body r) (pr_posted r)), None), w)).
Proof.
  intros [_ Hp]. rewrite (GetPost_ok id w Hp). split; [|split].
  - intros ->. reflexivity.
  - intros r -> ->. reflexivity.
  - intros r ur -> ->. reflexivity.
Qed.

(** ** The listing and the lookup of channels *)

(** X21: on a working storage handle, a channel that [GetChannel] finds
    for a user is in the listing of [UserChannels] for that user, with
    the same identifier, slug and label and a nil owner; and when the
    channel table has at most one row per user and slug, every channel
    of the listing is the one [GetChannel] finds for its slug. *)
Theorem UserChannels_GetChannel_agree (u : User) (w : World) :
  storage_ok w ->
  exists listing : list (option Channel),
    UserChannels u w = (Ret listing, w) /\
    (forall slug c,
        fst (GetChannel u slug w) = Ret (Some c, None) ->
        In (Some (mkChannel (cId c) None (Slug c) (Label c))) listing) /\
    (channel_unique (store w) ->
     forall c, In (Some c) listing ->
               fst (GetChannel u (Slug c) w) =
               Ret (Some (mkChannel (cId c) (Some u) (Slug c) (Label c)), None)).
Proof.
  intros [_ Hp]. eexists. split; [exact (UserChannels_ok u w Hp)|]. split.
  - intros slug c. rewrite (GetChannel_ok u slug w Hp). cbn [fst].
    unfold select_channel.
    destruct (find _ (channel (store w))) as [r|] eqn:F; [|discriminate].
    intros H. injection H as <-. cbn [cId Slug Label].
    destruct (find_some _ _ F) as [Hr Hk]. apply has_key_true in Hk.
    injection Hk as Huid Hslug.
    apply in_map. apply in_map_iff. exists r. split; [rewrite Hslug; reflexivity|].
    unfold select_user_channels. apply filter_In. split; [exact Hr|].
    apply Z.eqb_eq. exact Huid.
  - intros Hu c Hc. apply in_map_iff in Hc. destruct Hc as [c' [Hc' Hin]].
    injection Hc' as ->. apply in_map_iff in Hin. destruct Hin as [r [<- Hr]].
    unfold select_user_channels in Hr. apply filter_In in Hr.
    destruct Hr as [Hr Huid]. apply Z.eqb_eq in Huid. cbn [cId Slug Label].
    rewrite (GetChannel_ok u _ w Hp). cbn [fst]. unfold select_channel.
    assert (Hspec : forall k1 k2 : Z * string,
               andb (Z.eqb (fst k1) (fst k2)) (String.eqb (snd k1) (snd k2)) = true
               <-> k1 = k2).
    { intros [a1 b1] [a2 b2]. cbn [fst snd].
      rewrite andb_true_iff, Z.eqb_eq, String.eqb_eq.
      split; [intros [-> ->]; reflexivity
             |intros H; injection H as -> ->; split; reflexivity]. }
    pose proof (find_by_key channel_key
                  (fun k1 k2 => andb (Z.eqb (fst k1) (fst k2))
                                     (String.eqb (snd k1) (snd k2)))
                  (channel (store w)) r Hspec Hu Hr) as Hf.
    cbn [channel_key fst snd] in Hf. rewrite Huid in Hf. rewrite Hf. reflexivity.
Qed.

(** ** Instances of the further properties *)

Lemma storage_ok_world_of (d : DB) (faults : list bool) (tokens : list string) :
  storage_ok (world_of d faults tokens).
Proof. split; reflexivity. Defined.

Lemma db_wf_db_channel : db_wf db_channel.
Proof.
  unfold db_wf, channel_unique, post_ids_unique. cbn.
  repeat split; repeat constructor; cbn; intuition discriminate.
Defined.

Lemma db_wf_db_feed : db_wf db_feed.
Proof.
  unfold db_wf, channel_unique, post_ids_unique. cbn.
  repeat split; repeat constructor; cbn; intuition discriminate.
Defined.

Lemma CreateUser_then_lookups_witness :
  exists (w' : World) (u : User),
    CreateUser sample_hash "bob" "pw2" w_alice = (Ret (Some u, None), w') /\
    Username u = "bob" /\
    Password u = bytes (sample_hash "pw2") /\
    GetUser "bob" w' = (Ret (Some u, true), w') /\
    GetUserById (Id u) w' = (Ret (Some u, None), w').
Proof.
  apply (CreateUser_then_lookups sample_hash "bob" "pw2" w_alice).
  - apply storage_ok_world_of.
  - reflexivity.
  - reflexivity.
Defined.

Lemma CreateUser_keeps_stored_users_witness :
  exists (u : option User) (w' : World),
    CreateUser sample_hash "alice" "another" w_alice = (Ret (u, None), w') /\
    (forall name r,
        select_user_by_username (store w_alice) name = Some r ->
        GetUser name w' =
        (Ret (Some (mkUser (ur_id r) name (bytes (ur_password r))), true), w')) /\
    channel (store w') = channel (store w_alice) /\
    post (store w') = post (store w_alice) /\
    postchannel (store w') = postchannel (store w_alice).
Proof.
  apply (CreateUser_keeps_stored_users sample_hash "alice" "another" w_alice).
  apply storage_ok_world_of.
Defined.

Lemma AddChannels_then_GetChannel_witness :
  exists (created : list (option Channel)) (w' : World),
    AddChannels ascii_ToLower alice ["Tech News"; ""; "Diary"] w_alice
    = (Ret (created, None), w') /\
    forall label, In label ["Tech News"; ""; "Diary"] -> label <> "" ->
      exists c : Channel,
        GetChannel alice (slug_of ascii_ToLower label) w' = (Ret (Some c, None), w') /\
        Slug c = slug_of ascii_ToLower label /\ cUser c = Some alice.
Proof.
  apply (AddChannels_then_GetChannel ascii_ToLower alice
           ["Tech News"; ""; "Diary"] w_alice).
  - apply storage_ok_world_of.
  - constructor.
Defined.

Lemma AddChannels_keeps_existing_witness :
  exists (created : list (option Channel)) (w' : World),
    AddChannels ascii_ToLower alice ["Tech News"; "Diary"]
                (world_of db_channel [true] [])
    = (Ret (created, None), w') /\
    (forall (v : User) (slug : string) (r : ChannelRow),
        select_channel (store (world_of db_channel [true] [])) (Id v) slug = Some r ->
        GetChannel v slug w' =
        (Ret (Some (mkChannel (cr_id r) (Some v) slug (cr_label r)), None), w')) /\
    users (store w') = users (store (world_of db_channel [true] [])) /\
    post (store w') = post (store (world_of db_channel [true] [])) /\
    postchannel (store w') = postchannel (store (world_of db_channel [true] [])).
Proof.
  apply (AddChannels_keeps_existing ascii_ToLower alice ["Tech News"; "Diary"]
           (world_of db_channel [true] [])).
  apply storage_ok_world_of.
Defined.

Lemma AddChannels_reports_absent_before_witness :
  exists w' : World,
    AddChannels ascii_ToLower alice ["Diary"; "Tech News"; "diary"]
                (world_of db_channel [true] [])
    = (Ret ([None; None], None), w').
Proof.
  apply (AddChannels_reports_absent_before ascii_ToLower alice
           ["Diary"; "Tech News"; "diary"] (world_of db_channel [true] [])).
  apply storage_ok_world_of.
Defined.


Lemma AddPost_nil_channel_panics_witness :
  exists w' : World,
    AddPost alice "hello world" [Some tech_news; None] w_alice = (Panic, w') /\
    store w' = store w_alice /\
    txlog w' = txlog w_alice ++ [TxBegin] /\
    tx w' <> None.
Proof.
  apply (AddPost_nil_channel_panics alice "hello world" "token-1" ["token-2"]
           [Some tech_news; None] 1
           (snd (exec1 (insert_post 1 "token-1" "hello world" 1700000000) false
                       (Some db_alice)))
           w_alice).
  - apply storage_ok_world_of.
  - reflexivity.
  - reflexivity.
  - right. left. reflexivity.
Defined.

Lemma AddChannels_result_panics_AddPost_witness :
  fst (AddPost alice "hello world" [None]
               (snd (AddChannels ascii_ToLower alice ["Tech News"] w_alice)))
  = Panic /\
  store (snd (AddPost alice "hello world" [None]
                      (snd (AddChannels ascii_ToLower alice ["Tech News"] w_alice))))
  = store (snd (AddChannels ascii_ToLower alice ["Tech News"] w_alice)).
Proof.
  apply (AddChannels_result_panics_AddPost ascii_ToLower alice ["Tech News"]
           "hello world" "token-1" ["token-2"] 1
           (snd (exec1 (insert_post 1 "token-1" "hello world" 1700000000) false
                       (Some (store (snd (AddChannels ascii_ToLower alice
                                                      ["Tech News"] w_alice))))))
           [None] w_alice).
  - apply storage_ok_world_of.
  - reflexivity.
  - discriminate.
  - reflexivity.
  - reflexivity.
Defined.

Lemma AddPost_keeps_existing_posts_witness :
  exists (out : Outcome (option Post * option error)) (w' : World),
    AddPost alice "hello world" [Some tech_news] (world_of db_feed [] ["token-1"])
    = (out, w') /\
    (forall id r, select_post_by_id (store (world_of db_feed [] ["token-1"])) id
                  = Some r ->
                  fst (GetPost id w')
                  = fst (GetPost id (world_of db_feed [] ["token-1"]))) /\
    users (store w') = users (store (world_of db_feed [] ["token-1"])) /\
    channel (store w') = channel (store (world_of db_feed [] ["token-1"])).
Proof.
  apply (AddPost_keeps_existing_posts alice "hello world" [Some tech_news]
           (world_of db_feed [] ["token-1"])).
  apply storage_ok_world_of.
Defined.

Lemma writers_keep_keys_witness :
  (forall username password,
      db_wf (store (snd (CreateUser sample_hash username password
                                    (world_of db_feed [false; true] ["token-1"]))))) /\
  (forall u names,
      db_wf (store (snd (AddChannels ascii_ToLower u names
                                     (world_of db_feed [false; true] ["token-1"]))))) /\
  (forall u body channels,
      db_wf (store (snd (AddPost u body channels
                                 (world_of db_feed [false; true] ["token-1"]))))).
Proof.
  apply (writers_keep_keys ascii_ToLower sample_hash
           (world_of db_feed [false; true] ["token-1"])).
  - apply storage_ok_world_of.
  - exact db_wf_db_feed.
Defined.

Lemma GetUser_GetUserById_agree_witness :
  (forall username u,
      fst (GetUser username (world_of db_feed [] [])) = Ret (Some u, true) ->
      fst (GetUserById (Id u) (world_of db_feed [] [])) = Ret (Some u, None)) /\
  (forall id u,
      fst (GetUserById id (world_of db_feed [] [])) = Ret (Some u, None) ->
      fst (GetUser (Username u) (world_of db_feed [] [])) = Ret (Some u, true)).
Proof.
  apply (GetUser_GetUserById_agree (world_of db_feed [] [])).
  - apply storage_ok_world_of.
  - exact db_wf_db_feed.
Defined.

Lemma GetChannel_GetChannelById_agree_witness :
  fst (GetChannelById 1 (world_of db_channel [] [])) = Ret (Some tech_news, None).
Proof.
  apply (GetChannel_GetChannelById_agree alice "tech_news" tech_news
           (world_of db_channel [] [])).
  - apply storage_ok_world_of.
  - exact db_wf_db_channel.
  - reflexivity.
Defined.

Lemma user_page_is_part_of_feed_witness :
  exists feed : list (option Post),
    GetAllPosts (-1) 0 (world_of db_feed [] []) =
    (Ret (feed, None), world_of db_feed [] []) /\
    GetAllUserPosts (Some alice) (-1) 0 (world_of db_feed [] []) =
    (Ret (filter (owned_by (Id alice)) feed, None), world_of db_feed [] []).
Proof.
  apply (user_page_is_part_of_feed alice (world_of db_feed [] [])).
  - apply storage_ok_world_of.
  - reflexivity.
Defined.

Lemma AddPost_heads_the_feeds_witness :
  exists (w' : World) (p : Post) (feed page : list (option Post)),
    AddPost alice "hello world" (map Some [tech_news])
            (world_of db_feed [] ["token-1"])
    = (Ret (Some p, None), w') /\
    Body p = "hello world" /\
    GetAllPosts 2 0 w' = (Ret (Some p :: feed, None), w') /\
    GetAllUserPosts (pUser p) 2 0 w' = (Ret (Some p :: page, None), w').
Proof.
  apply (AddPost_heads_the_feeds alice (mkUserRow 1 "alice" "hashed:pw1")
           "hello world" "token-1" [] [tech_news] 2
           (world_of db_feed [] ["token-1"])).
  - apply storage_ok_world_of.
  - reflexivity.
  - intros r [<-|[<-|[<-|[]]]]; discriminate.
  - reflexivity.
  - reflexivity.
  - intros r [<-|[<-|[<-|[]]]]; reflexivity.
  - reflexivity.
Defined.

Lemma AddPost_token_fails_witness :
  exists w' : World,
    AddPost alice "hello world" [Some tech_news] (world_of db_alice [] [])
    = (Ret (None, Some ErrRand), w') /\
    store w' = store (world_of db_alice [] []) /\
    txlog w' = txlog (world_of db_alice [] []) ++ [TxBegin] /\
    tx w' = Some (store (world_of db_alice [] [])).
Proof.
  apply (AddPost_token_fails alice "hello world" [Some tech_news]
           (world_of db_alice [] [])).
  - apply storage_ok_world_of.
  - reflexivity.
Defined.

Lemma GetPost_found_or_ErrNoRows_witness :
  GetPost 2 (world_of db_feed [] []) =
  (Ret (None, Some ErrNoRows), world_of db_feed [] []).
Proof.
  apply (proj1 (proj2 (GetPost_found_or_ErrNoRows 2 (world_of db_feed [] [])
                         (storage_ok_world_of db_feed [] [])))
               (mkPostRow 2 "token-b" 7 "orphan" 200)).
  - reflexivity.
  - reflexivity.
Defined.

Lemma UserChannels_GetChannel_agree_witness :
  exists listing : list (option Channel),
    UserChannels alice (world_of db_channel [] []) =
    (Ret listing, world_of db_channel [] []) /\
    (forall slug c,
        fst (GetChannel alice slug (world_of db_channel [] [])) = Ret (Some c, None) ->
        In (Some (mkChannel (cId c) None (Slug c) (Label c))) listing) /\
    (channel_unique (store (world_of db_channel [] [])) ->
     forall c, In (Some c) listing ->
               fst (GetChannel alice (Slug c) (world_of db_channel [] [])) =
               Ret (Some (mkChannel (cId c) (Some alice) (Slug c) (Label c)), None)).
Proof.
  apply (UserChannels_GetChannel_agree alice (world_of db_channel [] [])).
  apply storage_ok_world_of.
Defined.
